(** * A shallow embedding of [gmm.py]: the GMM estimator

    The Python class [GMMEstimator] is embedded as a record of instance
    attributes together with the methods [gmm_objective],
    [optimal_weighting_matrix], [fit] and [jacobian_moment_cond], written in
    a small state-and-exception monad over that record.

    Modelling conventions.
    - Scalars are exact rationals ([Qc]): IEEE rounding, infinities and NaN
      produced by arithmetic are outside this model.  The one place where
      numpy yields NaN on ordinary data, [np.sqrt] of a negative number, is
      kept: see [float_root].  What rounding and overflow change is shown
      on the scipy branch run in binary64: see [F64].
    - A two-dimensional array is the list of its rows; a nested list is an
      array when it is rectangular with at least one row and one column
      ([is_ndarray]); arrays with an empty axis are outside the model.  The
      operators that check shapes in numpy ([@], broadcasting, [mean]) raise
      [ValueError] on anything else, so what is proved of a computation
      that returns is about genuine arrays.  One-dimensional arrays are
      lists of any length.
    - numpy arrays and torch tensors carry the same data and are not
      distinguished; [.detach()] and [.numpy()] are the identity.  The one
      dtype clash of the code, the float32 [torch.eye] against float64
      data, is kept: see [gmm_objective].
    - The external collaborators are parameters: the matrix inverse
      ([linalg_inv]), the random initial point ([random_rand]) and the two
      minimizers, each given as a strategy that decides from the objective
      values seen so far where to evaluate next and when to stop. *)

From Stdlib Require Import String QArith Qcanon Lia Bool Arith ZArith List.
From Stdlib Require PrimFloat.
Import ListNotations.
Open Scope Qc_scope.
Open Scope string_scope.

(** ** Python values, exceptions and results *)

Inductive exn : Type :=
| AttributeError
| UnboundLocalError
| TypeError
| ValueError
| LinAlgError
| ZeroDivisionError
| RuntimeError.

Inductive res (A : Type) : Type :=
| Ok (a : A)
| Raise (e : exn).
Arguments Ok {A} a.
Arguments Raise {A} e.

(** A Python value that is either [None] or a proper value. *)
Inductive pyval (A : Type) : Type :=
| PyNone
| Val (a : A).
Arguments PyNone {A}.
Arguments Val {A} a.

Definition res_bind {A B : Type} (r : res A) (f : A -> res B) : res B :=
  match r with
  | Ok a => f a
  | Raise e => Raise e
  end.

(** ** Arrays *)

Definition vector := list Qc.
Definition matrix := list (list Qc).

(** The value of [np.sqrt] at a rational [q]: the non-negative real root of
    [q] when [0 <= q] (kept symbolically, by its radicand), NaN otherwise. *)
Inductive float_root : Type :=
| Root (radicand : Qc)
| NaN.

Definition Qc_of_nat (m : nat) : Qc := Q2Qc (inject_Z (Z.of_nat m)).

Definition Qcleb (a b : Qc) : bool := Qle_bool a b.

Module Np.

Section Shape.
Context {A : Type}.

Definition nrows (M : list (list A)) : nat := length M.
Definition ncols (M : list (list A)) : nat := length (hd [] M).
Definition shape (M : list (list A)) : nat * nat := (nrows M, ncols M).

Definition is_ndarray (M : list (list A)) : bool :=
  (0 <? nrows M)%nat && (0 <? ncols M)%nat
  && forallb (fun r => length r =? ncols M)%nat M.

Fixpoint map2 {B C : Type} (f : A -> B -> C) (u : list A) (v : list B)
  : list C :=
  match u, v with
  | a :: u', b :: v' => f a b :: map2 f u' v'
  | _, _ => []
  end.

(** [M.T] for an array with [c] columns. *)
Fixpoint transpose_aux (c : nat) (M : list (list A)) : list (list A) :=
  match M with
  | [] => repeat [] c
  | r :: M' => map2 cons r (transpose_aux c M')
  end.

Definition transpose (M : list (list A)) : list (list A) :=
  transpose_aux (ncols M) M.

(** [v[:, np.newaxis]] and [v.unsqueeze(-1)]. *)
Definition newaxis (v : list A) : list (list A) := map (fun a => [a]) v.
End Shape.

Definition zeros (m : nat) : vector := repeat 0 m.

Fixpoint dot (u v : vector) : Qc :=
  match u, v with
  | a :: u', b :: v' => a * b + dot u' v'
  | _, _ => 0
  end.

Definition vadd (u v : vector) : vector := map2 Qcplus u v.
Definition vscale (c : Qc) (v : vector) : vector := map (Qcmult c) v.
Definition madd (M N : matrix) : matrix := map2 vadd M N.
Definition mscale (c : Qc) (M : matrix) : matrix := map (vscale c) M.
Definition mneg (M : matrix) : matrix := map (map Qcopp) M.
Definition mzeros (r c : nat) : matrix := repeat (zeros c) r.

(** [M @ v] for a 2-D [M] and a 1-D [v]. *)
Definition matvec (M : matrix) (v : vector) : vector :=
  map (fun r => dot r v) M.

(** [u @ M] for a 1-D [u] and a 2-D [M] with [c] columns. *)
Fixpoint vecmat (c : nat) (u : vector) (M : matrix) : vector :=
  match u, M with
  | a :: u', r :: M' => vadd (vscale a r) (vecmat c u' M')
  | _, _ => zeros c
  end.

(** [M @ N] for 2-D arrays. *)
Definition matmul (M N : matrix) : matrix :=
  map (fun r => vecmat (ncols N) r N) M.

Definition eye_row (m i : nat) : vector :=
  map (fun j => if (i =? j)%nat then 1 else 0) (seq 0 m).

(** [np.eye(m)], [torch.eye(m)]. *)
Definition eye (m : nat) : matrix := map (eye_row m) (seq 0 m).

Definition col (j : nat) (M : matrix) : vector :=
  map (fun r => nth j r 0) M.

(** [np.diag(M)] for a 2-D [M]. *)
Definition diag (M : matrix) : vector :=
  map (fun i => nth i (nth i M []) 0) (seq 0 (Nat.min (nrows M) (ncols M))).

Definition colsum (c : nat) (M : matrix) : vector :=
  fold_right vadd (zeros c) M.

(** [np.sqrt], elementwise. *)
Definition sqrt1 (q : Qc) : float_root := if Qcleb 0 q then Root q else NaN.
Definition sqrt (v : vector) : list float_root := map sqrt1 v.

(** The operators as Python applies them: shapes are checked first. *)

Definition matmul_mm (M N : matrix) : res matrix :=
  if is_ndarray M && is_ndarray N && (ncols M =? nrows N)%nat
  then Ok (matmul M N) else Raise ValueError.

Definition matmul_mv (M : matrix) (v : vector) : res vector :=
  if is_ndarray M && (ncols M =? length v)%nat
  then Ok (matvec M v) else Raise ValueError.

Definition matmul_vm (u : vector) (M : matrix) : res vector :=
  if is_ndarray M && (length u =? nrows M)%nat
  then Ok (vecmat (ncols M) u M) else Raise ValueError.

Definition matmul_vv (u v : vector) : res Qc :=
  if (length u =? length v)%nat
  then Ok (dot u v) else Raise ValueError.

(** [M.mean(axis=0)]. *)
Definition mean_axis0 (M : matrix) : res vector :=
  if is_ndarray M
  then Ok (map (fun s => s / Qc_of_nat (nrows M)) (colsum (ncols M) M))
  else Raise ValueError.

(** [J.sum(axis=0)] for a 3-D [J]. *)
Definition sum_axis0 (J : list matrix) : matrix :=
  fold_right madd (mzeros (nrows (hd [] J)) (ncols (hd [] J))) J.

End Np.

(** ** Moment conditions

    A moment condition is a Python function of [(z, y, x, beta)] built from
    array arithmetic.  It is written once, over any carrier with that
    arithmetic ([Num]), so that it can be run on numbers and, for
    [torch.func.jacfwd], on dual numbers. *)

Class Num (A : Type) : Type := {
  num_zero : A;
  num_add : A -> A -> A;
  num_sub : A -> A -> A;
  num_mul : A -> A -> A
}.

#[global] Instance Num_Qc : Num Qc := {
  num_zero := 0;
  num_add := Qcplus;
  num_sub := Qcminus;
  num_mul := Qcmult
}.

Definition moment_fn : Type :=
  forall (A : Type), Num A ->
    list (list A) -> list A -> list (list A) -> list A -> res (list (list A)).

Module Arr.
Section Generic.
Context {A : Type} `{Num A}.

Fixpoint dot (u v : list A) : A :=
  match u, v with
  | a :: u', b :: v' => num_add (num_mul a b) (dot u' v')
  | _, _ => num_zero
  end.

(** [M @ v] *)
Definition matmul_mv (M : list (list A)) (v : list A) : res (list A) :=
  if Np.is_ndarray M && (Np.ncols M =? length v)%nat
  then Ok (map (fun r => dot r v) M) else Raise ValueError.

Fixpoint sequence {B : Type} (l : list (res B)) : res (list B) :=
  match l with
  | [] => Ok []
  | r :: l' =>
      res_bind r (fun b => res_bind (sequence l') (fun bs => Ok (b :: bs)))
  end.

(** numpy broadcasting along one axis: equal lengths, or one of the two
    operands has length one and is repeated. *)
Definition broadcast {B C D : Type} (f : B -> C -> D)
    (u : list B) (v : list C) : res (list D) :=
  if (length u =? length v)%nat then Ok (Np.map2 f u v)
  else match u, v with
       | [a], _ => Ok (map (f a) v)
       | _, [b] => Ok (map (fun a => f a b) u)
       | _, _ => Raise ValueError
       end.

(** Elementwise operation on two 2-D arrays, broadcasting both axes. *)
Definition broadcast2 (f : A -> A -> A) (M N : list (list A))
  : res (list (list A)) :=
  if Np.is_ndarray M && Np.is_ndarray N
  then res_bind (broadcast (broadcast f) M N) sequence
  else Raise ValueError.
End Generic.
End Arr.

(** [iv_moment_numpy]: [z * (y - x @ beta)[:, np.newaxis]]. *)
Definition iv_moment_numpy : moment_fn :=
  fun A _ z y x beta =>
    res_bind (Arr.matmul_mv x beta) (fun xb =>
    res_bind (Arr.broadcast num_sub y xb) (fun r =>
    Arr.broadcast2 num_mul z (Np.newaxis r))).

(** [iv_moment_pytorch]: [z * (y - x @ beta).unsqueeze(-1)], on tensors.
    (Arrays and tensors are not distinguished: on numpy arrays the source
    raises [AttributeError] at [.unsqueeze], which this definition does not
    show; below it is only paired with the torch backend.) *)
Definition iv_moment_pytorch : moment_fn :=
  fun A _ z y x beta =>
    res_bind (Arr.matmul_mv x beta) (fun xb =>
    res_bind (Arr.broadcast num_sub y xb) (fun r =>
    Arr.broadcast2 num_mul z (Np.newaxis r))).

(** ** Forward-mode automatic differentiation

    [torch.func.jacfwd(f, argnums=3)] runs [f] on dual numbers: every number
    carries the vector of its partial derivatives with respect to the
    entries of the fourth argument. *)

Record dual : Type := mkdual { primal : Qc; tangent : vector }.

Definition vsub (u v : vector) : vector := Np.map2 Qcminus u v.

#[global] Instance Num_dual (k : nat) : Num dual := {
  num_zero := mkdual 0 (Np.zeros k);
  num_add a b :=
    mkdual (primal a + primal b) (Np.vadd (tangent a) (tangent b));
  num_sub a b :=
    mkdual (primal a - primal b) (vsub (tangent a) (tangent b));
  num_mul a b :=
    mkdual (primal a * primal b)
           (Np.vadd (Np.vscale (primal a) (tangent b))
                    (Np.vscale (primal b) (tangent a)))
}.

(** A constant: all partial derivatives are zero. *)
Definition const_dual (k : nat) (c : Qc) : dual := mkdual c (Np.zeros k).

(** The differentiated argument: entry [j] has derivative [e_j]. *)
Definition seed (theta : vector) : list dual :=
  Np.map2 (fun j t => mkdual t (Np.eye_row (length theta) j))
          (seq 0 (length theta)) theta.

(** [jacfwd(f, argnums=3)(z, y, x, theta)]: shape (n, L, k). *)
Definition jacfwd (f : moment_fn) (z : matrix) (y : vector) (x : matrix)
    (theta : vector) : res (list matrix) :=
  let k := length theta in
  res_bind (f dual (Num_dual k) (map (map (const_dual k)) z)
              (map (const_dual k) y) (map (map (const_dual k)) x)
              (seed theta))
           (fun M => Ok (map (map tangent) M)).

(** ** The external minimizer

    [scipy.optimize.minimize] and [torchmin.minimize] are black boxes that
    call the objective at points of their choosing and finally return a
    point.  A [strategy] is such a terminating plan: either stop with the
    result [x], or evaluate the objective at [beta] and continue according
    to the value obtained. *)

Inductive strategy : Type :=
| Done (x : vector)
| Query (beta : vector) (next : Qc -> strategy).

(** A solver receives the method name, the verbosity flag, the starting
    point and the objective value there (both minimizers evaluate the
    objective at the starting point first).  Whatever a minimizer does on
    a given objective, including with gradients it obtains on the side, is
    the run of some plan: the one that queries the same points in the same
    order.  The properties below hold for every solver. *)
Definition solver : Type := string -> bool -> vector -> Qc -> strategy.

(** ** The estimator *)

Module GMMEstimator.

(** Instance attributes.  [None] is an attribute that has not been
    assigned; [W] and [std_errors] may also hold Python's [None].
    ([self.jac], a function object, is not kept.) *)
Record t : Type := mk {
  moment_cond : moment_fn;
  weighting_matrix : string;
  opt : string;
  z : option matrix;
  y : option vector;
  x : option matrix;
  n : option nat;
  k : option nat;
  W : option (pyval matrix);
  theta : option vector;
  Gamma : option matrix;
  vtheta : option matrix;
  std_errors : option (pyval (list float_root));
  jac_est : option matrix
}.

(** [__init__(self, moment_cond, weighting_matrix="optimal", opt="scipy")] *)
Definition init (mc : moment_fn) (wm : option string) (o : option string)
  : t :=
  mk mc
     (match wm with Some s => s | None => "optimal" end)
     (match o with Some s => s | None => "scipy" end)
     None None None None None None None None None None None.

Definition set_z (v : matrix) (s : t) : t :=
  mk (moment_cond s) (weighting_matrix s) (opt s) (Some v) (y s) (x s)
     (n s) (k s) (W s) (theta s) (Gamma s) (vtheta s) (std_errors s)
     (jac_est s).
Definition set_y (v : vector) (s : t) : t :=
  mk (moment_cond s) (weighting_matrix s) (opt s) (z s) (Some v) (x s)
     (n s) (k s) (W s) (theta s) (Gamma s) (vtheta s) (std_errors s)
     (jac_est s).
Definition set_x (v : matrix) (s : t) : t :=
  mk (moment_cond s) (weighting_matrix s) (opt s) (z s) (y s) (Some v)
     (n s) (k s) (W s) (theta s) (Gamma s) (vtheta s) (std_errors s)
     (jac_est s).
Definition set_n (v : nat) (s : t) : t :=
  mk (moment_cond s) (weighting_matrix s) (opt s) (z s) (y s) (x s)
     (Some v) (k s) (W s) (theta s) (Gamma s) (vtheta s) (std_errors s)
     (jac_est s).
Definition set_k (v : nat) (s : t) : t :=
  mk (moment_cond s) (weighting_matrix s) (opt s) (z s) (y s) (x s)
     (n s) (Some v) (W s) (theta s) (Gamma s) (vtheta s) (std_errors s)
     (jac_est s).
Definition set_W (v : pyval matrix) (s : t) : t :=
  mk (moment_cond s) (weighting_matrix s) (opt s) (z s) (y s) (x s)
     (n s) (k s) (Some v) (theta s) (Gamma s) (vtheta s) (std_errors s)
     (jac_est s).
Definition set_theta (v : vector) (s : t) : t :=
  mk (moment_cond s) (weighting_matrix s) (opt s) (z s) (y s) (x s)
     (n s) (k s) (W s) (Some v) (Gamma s) (vtheta s) (std_errors s)
     (jac_est s).
Definition set_Gamma (v : matrix) (s : t) : t :=
  mk (moment_cond s) (weighting_matrix s) (opt s) (z s) (y s) (x s)
     (n s) (k s) (W s) (theta s) (Some v) (vtheta s) (std_errors s)
     (jac_est s).
Definition set_vtheta (v : matrix) (s : t) : t :=
  mk (moment_cond s) (weighting_matrix s) (opt s) (z s) (y s) (x s)
     (n s) (k s) (W s) (theta s) (Gamma s) (Some v) (std_errors s)
     (jac_est s).
Definition set_std_errors (v : pyval (list float_root)) (s : t) : t :=
  mk (moment_cond s) (weighting_matrix s) (opt s) (z s) (y s) (x s)
     (n s) (k s) (W s) (theta s) (Gamma s) (vtheta s) (Some v)
     (jac_est s).
Definition set_jac_est (v : matrix) (s : t) : t :=
  mk (moment_cond s) (weighting_matrix s) (opt s) (z s) (y s) (x s)
     (n s) (k s) (W s) (theta s) (Gamma s) (vtheta s) (std_errors s)
     (Some v).

(** Methods run in a state-and-exception monad over the instance: an
    exception leaves the attributes assigned so far in place. *)
Definition M (A : Type) : Type := t -> res A * t.

Definition ret {A : Type} (a : A) : M A := fun s => (Ok a, s).
Definition raise {A : Type} (e : exn) : M A := fun s => (Raise e, s).
Definition bind {A B : Type} (m : M A) (f : A -> M B) : M B :=
  fun s => match m s with
           | (Ok a, s') => f a s'
           | (Raise e, s') => (Raise e, s')
           end.
Definition gets {A : Type} (f : t -> A) : M A := fun s => (Ok (f s), s).
Definition assign (f : t -> t) : M unit := fun s => (Ok tt, f s).
Definition lift {A : Type} (r : res A) : M A := fun s => (r, s).

(** [try: body  except: handler] with a bare [except]. *)
Definition try_except {A : Type} (body : M A) (handler : M A) : M A :=
  fun s => match body s with
           | (Ok a, s') => (Ok a, s')
           | (Raise _, s') => handler s'
           end.

(** Reading [self.a]. *)
Definition getattr {A : Type} (f : t -> option A) : M A :=
  fun s => match f s with
           | Some a => (Ok a, s)
           | None => (Raise AttributeError, s)
           end.

(** Using a value that may be [None] where an array or a number is
    needed; [e] is what Python raises on [None] there. *)
Definition proper {A : Type} (e : exn) (v : pyval A) : M A :=
  match v with
  | Val a => ret a
  | PyNone => raise e
  end.

Declare Scope gmm_scope.
Delimit Scope gmm_scope with gmm.
Notation "a <- c1 ;; c2" := (bind c1 (fun a => c2))
  (at level 61, c1 at next level, right associativity) : gmm_scope.
Notation "c1 ;; c2" := (bind c1 (fun _ => c2))
  (at level 61, right associativity) : gmm_scope.
Open Scope gmm_scope.

(** Running the rest of a minimizer's plan against the objective [f]. *)
Fixpoint run_strategy (f : vector -> M (pyval Qc)) (s : strategy)
  : M vector :=
  match s with
  | Done r => ret r
  | Query beta next =>
      v <- f beta ;;
      q <- proper TypeError v ;;
      run_strategy f (next q)
  end.

(** [minimize(f, x0, method=..., ...)] returning [result.x]. *)
Definition minimize (sv : solver) (f : vector -> M (pyval Qc))
    (x0 : vector) (method : string) (verbose : bool) : M vector :=
  v <- f x0 ;;
  q <- proper TypeError v ;;
  run_strategy f (sv method verbose x0 q).

Section Methods.
(** [np.linalg.inv] / [torch.inverse] *)
Variable linalg_inv : matrix -> res matrix.
(** [np.random.rand] *)
Variable random_rand : nat -> vector.
(** [scipy.optimize.minimize] and [torchmin.minimize] *)
Variable scipy_solver : solver.
Variable torchmin_solver : solver.

Definition optimal_weighting_matrix (moments : matrix)
  : M (pyval matrix) :=
  o <- gets opt ;;
  if (o =? "scipy")%string then
    n_ <- getattr n ;;
    c <- (if (n_ =? 0)%nat then raise ZeroDivisionError
          else ret (1 / Qc_of_nat n_)) ;;
    p <- lift (Np.matmul_mm (Np.transpose moments) moments) ;;
    w <- lift (linalg_inv (Np.mscale c p)) ;;
    ret (Val w)
  else if (o =? "torch")%string then
    n_ <- getattr n ;;
    c <- (if (n_ =? 0)%nat then raise ZeroDivisionError
          else ret (1 / Qc_of_nat n_)) ;;
    p <- lift (Np.matmul_mm (Np.transpose moments) moments) ;;
    w <- lift (linalg_inv (Np.mscale c p)) ;;
    ret (Val w)
  else ret PyNone.

(** The objective.  On the torch backend the value is a tensor of
    shape (1,), identified here with its single entry.  There the data
    are float64 tensors (lines 72 to 80) while [torch.eye] is float32, and
    [torch.matmul] refuses mixed dtypes: with a weighting string other than
    "optimal" the product [torch.matmul(self.W, mavg)] raises
    [RuntimeError], after [W] has been assigned. *)
Definition gmm_objective (beta : vector) : M (pyval Qc) :=
  mc <- gets moment_cond ;;
  z_ <- getattr z ;;
  y_ <- getattr y ;;
  x_ <- getattr x ;;
  moments <- lift (mc Qc Num_Qc z_ y_ x_ beta) ;;
  wm <- gets weighting_matrix ;;
  o <- gets opt ;;
  (if (wm =? "optimal")%string then
     w <- optimal_weighting_matrix moments ;;
     assign (set_W w)
   else if (o =? "scipy")%string then
     assign (set_W (Val (Np.eye (Np.ncols moments))))
   else if (o =? "torch")%string then
     assign (set_W (Val (Np.eye (Np.ncols moments))))
   else ret tt) ;;
  mavg <- lift (Np.mean_axis0 moments) ;;
  if (o =? "scipy")%string then
    w_ <- getattr W ;;
    w <- proper TypeError w_ ;;
    u <- lift (Np.matmul_vm mavg w) ;;
    v <- lift (Np.matmul_vv u mavg) ;;
    ret (Val v)
  else if (o =? "torch")%string then
    w_ <- getattr W ;;
    w <- proper TypeError w_ ;;
    (if (wm =? "optimal")%string then ret tt else raise RuntimeError) ;;
    u <- lift (Np.matmul_mv w mavg) ;;
    v <- lift (Np.matmul_mv (Np.transpose (Np.newaxis mavg)) u) ;;
    match v with
    | [q] => ret (Val q)
    | _ => raise ValueError
    end
  else ret PyNone.

Definition jacobian_moment_cond : M matrix :=
  o <- gets opt ;;
  (if (o =? "scipy")%string then
     z_ <- getattr z ;;
     x_ <- getattr x ;;
     g <- lift (Np.matmul_mm (Np.mneg (Np.transpose z_)) x_) ;;
     assign (set_jac_est g)
   else if (o =? "torch")%string then
     mc <- gets moment_cond ;;
     z_ <- getattr z ;;
     y_ <- getattr y ;;
     x_ <- getattr x ;;
     theta_ <- getattr theta ;;
     j <- lift (jacfwd mc z_ y_ x_ theta_) ;;
     assign (set_jac_est (Np.sum_axis0 j))
   else ret tt) ;;
  getattr jac_est.

(** [fit], lines 56 to 86: default method, data staging, minimization
    and [self.theta = result.x]. *)
Definition fit_solve (z_ : matrix) (y_ : vector) (x_ : matrix)
    (verbose : bool) (fit_method : option string) : M unit :=
  o <- gets opt ;;
  let fit_method :=
    match fit_method with
    | None => if (o =? "torch")%string then "l-bfgs" else "L-BFGS-B"
    | Some m => m
    end in
  result <-
    (if (o =? "scipy")%string then
       assign (set_z z_) ;; assign (set_y y_) ;; assign (set_x x_) ;;
       assign (set_n (Np.nrows x_)) ;; assign (set_k (Np.ncols x_)) ;;
       k_ <- getattr k ;;
       r <- minimize scipy_solver gmm_objective (random_rand k_)
                     fit_method verbose ;;
       ret (Some r)
     else if (o =? "torch")%string then
       assign (set_z z_) ;; assign (set_y y_) ;; assign (set_x x_) ;;
       assign (set_n (Np.nrows x_)) ;; assign (set_k (Np.ncols x_)) ;;
       k_ <- getattr k ;;
       r <- minimize torchmin_solver gmm_objective (random_rand k_)
                     fit_method verbose ;;
       w_ <- getattr W ;;
       w <- proper AttributeError w_ ;;
       assign (set_W (Val w)) ;;
       ret (Some r)
     else ret None) ;;
  r <- match result with
       | Some r => ret r
       | None => raise UnboundLocalError
       end ;;
  assign (set_theta r).

(** [fit], lines 90 to 92: the body of the [try]. *)
Definition fit_covariance : M unit :=
  g <- jacobian_moment_cond ;;
  assign (set_Gamma g) ;;
  g_ <- getattr Gamma ;;
  w_ <- getattr W ;;
  w <- proper TypeError w_ ;;
  a <- lift (Np.matmul_mm (Np.transpose g_) w) ;;
  b <- lift (Np.matmul_mm a g_) ;;
  v <- lift (linalg_inv b) ;;
  assign (set_vtheta v) ;;
  n_ <- getattr n ;;
  v_ <- getattr vtheta ;;
  assign (set_std_errors
            (Val (Np.sqrt (Np.vscale (Qc_of_nat n_) (Np.diag v_))))).

Definition fit (z_ : matrix) (y_ : vector) (x_ : matrix)
    (verbose : bool) (fit_method : option string) : M unit :=
  fit_solve z_ y_ x_ verbose fit_method ;;
  try_except fit_covariance (assign (set_std_errors PyNone)).

(** [summary]: the two columns of the data frame. *)
Definition summary : M (vector * pyval (list float_root)) :=
  th <- getattr theta ;;
  se <- getattr std_errors ;;
  ret (th, se).

End Methods.

(** The instance as [__init__] leaves it: same configuration, no attribute
    assigned yet. *)
Definition fresh (s : t) : t :=
  mk (moment_cond s) (weighting_matrix s) (opt s)
     None None None None None None None None None None None.


(** The last point at which a plan evaluates [f], with the instance as it
    was just before that evaluation; [(b, sb)] is the latest evaluation made
    so far. *)
Fixpoint last_evaluation (f : vector -> M (pyval Qc)) (s : strategy)
    (b : vector) (sb : t) (st : t) : vector * t :=
  match s with
  | Done _ => (b, sb)
  | Query beta next =>
      match f beta st with
      | (Ok (Val q), st') => last_evaluation f (next q) beta st st'
      | _ => (beta, st)
      end
  end.

Definition minimize_last_evaluation (sv : solver)
    (f : vector -> M (pyval Qc)) (x0 : vector) (method : string)
    (verbose : bool) (st : t) : vector * t :=
  match f x0 st with
  | (Ok (Val q), st') =>
      last_evaluation f (sv method verbose x0 q) x0 st st'
  | _ => (x0, st)
  end.

(** The data staged by [fit] before it minimizes. *)
Definition stage (z_ : matrix) (y_ : vector) (x_ : matrix) (s : t) : t :=
  set_k (Np.ncols x_) (set_n (Np.nrows x_) (set_x x_ (set_y y_ (set_z z_ s)))).

(** The method [fit] passes to the minimizer. *)
Definition method_of (fit_method : option string) (o : string) : string :=
  match fit_method with
  | None => if (o =? "torch")%string then "l-bfgs" else "L-BFGS-B"
  | Some m => m
  end.

(** The minimizer of the backend [o]. *)
Definition solver_of (scipy_solver torchmin_solver : solver) (o : string)
  : solver :=
  if (o =? "torch")%string then torchmin_solver else scipy_solver.

(** Two instances that differ at most in [W]. *)
Definition same_but_W (a b : t) : Prop := set_W PyNone a = set_W PyNone b.

(** Two instances that differ at most in what the covariance step assigns:
    [Gamma], [vtheta], [std_errors] and [jac_est]. *)
Definition clear_covariance (s : t) : t :=
  mk (moment_cond s) (weighting_matrix s) (opt s) (z s) (y s) (x s)
     (n s) (k s) (W s) (theta s) None None None None.
Definition same_but_covariance (a b : t) : Prop :=
  clear_covariance a = clear_covariance b.

(** Two instances with the same configuration and the same staged data:
    they differ at most in what a fit computes ([W], [theta], [Gamma],
    [vtheta], [std_errors], [jac_est]). *)
Definition clear_results (s : t) : t :=
  mk (moment_cond s) (weighting_matrix s) (opt s) (z s) (y s) (x s)
     (n s) (k s) None None None None None None.
Definition same_inputs (a b : t) : Prop :=
  clear_results a = clear_results b.

(** A computation whose every run relates the instance before to the
    instance after, whether it returns or raises. *)
Definition preserves {A : Type} (R : t -> t -> Prop) (m : M A) : Prop :=
  forall s r s', m s = (r, s') -> R s s'.

End GMMEstimator.

(** ** The scipy backend in binary64

    The scipy branch of the same methods, on IEEE 754 binary64 numbers
    (primitive floats) instead of exact rationals: products overflow,
    [inf - inf] is NaN, sums round and [np.sqrt] of a negative number is
    NaN.  It is what the exact model is compared with where a property
    depends on the arithmetic.  Attributes are passed as arguments (on this
    path the one attribute an objective evaluation leaves for later is
    [W]), and [fit] is run on a freshly constructed instance.  Sums are
    nested as in the exact model, without fused operations; the runs shown
    below have two terms per sum, where the order plays no part. *)

Module F64.
Import PrimFloat.

Definition fvector := list float.
Definition fmatrix := list (list float).

#[global] Instance Num_float : Num float := {
  num_zero := 0%float;
  num_add := add;
  num_sub := sub;
  num_mul := mul
}.

(** A Python [int] as a float (exact below 2^53). *)
Fixpoint of_nat (m : nat) : float :=
  match m with
  | O => 0%float
  | S m' => (of_nat m' + 1)%float
  end.

Definition zeros (m : nat) : fvector := repeat 0%float m.
Definition dot (u v : fvector) : float := Arr.dot u v.
Definition vadd (u v : fvector) : fvector := Np.map2 add u v.
Definition vscale (c : float) (v : fvector) : fvector := map (mul c) v.
Definition mscale (c : float) (M : fmatrix) : fmatrix := map (vscale c) M.
Definition mneg (M : fmatrix) : fmatrix := map (map opp) M.

Fixpoint vecmat (c : nat) (u : fvector) (M : fmatrix) : fvector :=
  match u, M with
  | a :: u', r :: M' => vadd (vscale a r) (vecmat c u' M')
  | _, _ => zeros c
  end.

Definition matmul (M N : fmatrix) : fmatrix :=
  map (fun r => vecmat (Np.ncols N) r N) M.

Definition eye (m : nat) : fmatrix :=
  map (fun i => map (fun j => if (i =? j)%nat then 1%float else 0%float)
                    (seq 0 m))
      (seq 0 m).

Definition diag (M : fmatrix) : fvector :=
  map (fun i => nth i (nth i M []) 0%float)
      (seq 0 (Nat.min (Np.nrows M) (Np.ncols M))).

Definition colsum (c : nat) (M : fmatrix) : fvector :=
  fold_right vadd (zeros c) M.

Definition matmul_mm (M N : fmatrix) : res fmatrix :=
  if Np.is_ndarray M && Np.is_ndarray N && (Np.ncols M =? Np.nrows N)%nat
  then Ok (matmul M N) else Raise ValueError.

Definition matmul_vm (u : fvector) (M : fmatrix) : res fvector :=
  if Np.is_ndarray M && (length u =? Np.nrows M)%nat
  then Ok (vecmat (Np.ncols M) u M) else Raise ValueError.

Definition matmul_vv (u v : fvector) : res float :=
  if (length u =? length v)%nat
  then Ok (dot u v) else Raise ValueError.

Definition mean_axis0 (M : fmatrix) : res fvector :=
  if Np.is_ndarray M
  then Ok (map (fun s => (s / of_nat (Np.nrows M))%float)
               (colsum (Np.ncols M) M))
  else Raise ValueError.

(** A minimizer's plan and a minimizer, as for the exact model. *)
Inductive fstrategy : Type :=
| Done (x : fvector)
| Query (beta : fvector) (next : float -> fstrategy).

Definition fsolver : Type := string -> bool -> fvector -> float -> fstrategy.

(** What [fit] leaves on a fresh instance; an attribute that was not
    assigned is [None], and so is a [std_errors] set to Python's [None]. *)
Record fitted : Type := mkfitted {
  theta : fvector;
  W : fmatrix;
  Gamma : option fmatrix;
  vtheta : option fmatrix;
  std_errors : option (list float)
}.

Section Methods.
Variable linalg_inv : fmatrix -> res fmatrix.
Variable random_rand : nat -> fvector.
Variable scipy_solver : fsolver.
Variable moment_cond : moment_fn.
Variable weighting_matrix : string.

(** [optimal_weighting_matrix], lines 50 and 51. *)
Definition optimal_weighting_matrix (n : nat) (moments : fmatrix)
  : res fmatrix :=
  if (n =? 0)%nat then Raise ZeroDivisionError
  else res_bind (matmul_mm (Np.transpose moments) moments) (fun p =>
       linalg_inv (mscale (1 / of_nat n)%float p)).

(** [gmm_objective], lines 29 to 39: the [W] assigned and the value. *)
Definition gmm_objective (z : fmatrix) (y : fvector) (x : fmatrix)
    (n : nat) (beta : fvector) : res (fmatrix * float) :=
  res_bind (moment_cond float Num_float z y x beta) (fun moments =>
  res_bind (if (weighting_matrix =? "optimal")%string
            then optimal_weighting_matrix n moments
            else Ok (eye (Np.ncols moments))) (fun w =>
  res_bind (mean_axis0 moments) (fun mavg =>
  res_bind (matmul_vm mavg w) (fun u =>
  res_bind (matmul_vv u mavg) (fun v =>
  Ok (w, v)))))).

(** [jacobian_moment_cond], line 101. *)
Definition jacobian_moment_cond (z x : fmatrix) : res fmatrix :=
  matmul_mm (mneg (Np.transpose z)) x.

(** The rest of a minimizer's plan; [w] is the [W] of the latest
    evaluation. *)
Fixpoint run_strategy (f : fvector -> res (fmatrix * float))
    (s : fstrategy) (w : fmatrix) : res (fvector * fmatrix) :=
  match s with
  | Done r => Ok (r, w)
  | Query beta next =>
      res_bind (f beta) (fun wv => run_strategy f (next (snd wv)) (fst wv))
  end.

Definition minimize (f : fvector -> res (fmatrix * float)) (x0 : fvector)
    (method : string) (verbose : bool) : res (fvector * fmatrix) :=
  res_bind (f x0) (fun wv =>
  run_strategy f (scipy_solver method verbose x0 (snd wv)) (fst wv)).

(** [fit], lines 56 to 69 and 86 to 94. *)
Definition fit (z : fmatrix) (y : fvector) (x : fmatrix) (verbose : bool)
    (fit_method : option string) : res fitted :=
  let fit_method :=
    match fit_method with None => "L-BFGS-B" | Some m => m end in
  let n := Np.nrows x in
  let k := Np.ncols x in
  res_bind (minimize (gmm_objective z y x n) (random_rand k)
                     fit_method verbose) (fun rw =>
  let th := fst rw in
  let w := snd rw in
  Ok (match jacobian_moment_cond z x with
      | Raise _ => mkfitted th w None None None
      | Ok g =>
          match res_bind (matmul_mm (Np.transpose g) w) (fun a =>
                res_bind (matmul_mm a g) linalg_inv) with
          | Raise _ => mkfitted th w (Some g) None None
          | Ok v =>
              mkfitted th w (Some g) (Some v)
                (Some (map sqrt (vscale (of_nat n) (diag v))))
          end
      end)).
End Methods.

(** A finite number: neither an infinity nor NaN. *)
Definition finite (a : float) : bool := (abs a <? infinity)%float.

(** Not NaN and not below zero. *)
Definition nonneg (a : float) : bool := (0 <=? a)%float.

End F64.

(** ** Notions used to state the properties *)

(** The quadratic form [m^T W m]. *)
Definition quad_form (m : vector) (Wm : matrix) : Qc :=
  Np.dot m (Np.matvec Wm m).

(** What is assumed of [np.linalg.inv] and [torch.inverse] where a property
    depends on it: a returned matrix has the shape of the argument and is a
    right inverse of it. *)
Definition inverse_contract (inv : matrix -> res matrix) : Prop :=
  forall A V, inv A = Ok V ->
    Np.is_ndarray V = true /\
    Np.nrows V = Np.nrows A /\
    Np.ncols V = Np.nrows A /\
    Np.matmul A V = Np.eye (Np.nrows A).

(** [Wm] is positive semidefinite of order [L]: an [L] x [L] array whose
    quadratic form is nowhere negative (symmetry plays no part below). *)
Definition psd (L : nat) (Wm : matrix) : Prop :=
  Np.is_ndarray Wm = true /\ Np.nrows Wm = L /\ Np.ncols Wm = L /\
  forall g, length g = L -> 0 <= quad_form g Wm.

(** What one objective evaluation computes, read off [gmm_objective]:
    the weighting matrix it assigns, given the moments [Mm] ... *)
Definition weight_spec (inv : matrix -> res matrix) (st : GMMEstimator.t)
    (Mm Wm : matrix) : Prop :=
  if (GMMEstimator.weighting_matrix st =? "optimal")%string
  then exists n_ P,
         GMMEstimator.n st = Some n_ /\ n_ <> 0%nat /\
         Np.matmul_mm (Np.transpose Mm) Mm = Ok P /\
         inv (Np.mscale (1 / Qc_of_nat n_) P) = Ok Wm
  else Wm = Np.eye (Np.ncols Mm).

(** ... and the value it returns, given the mean moments and that matrix. *)
Definition value_spec (st : GMMEstimator.t) (mavg : vector) (Wm : matrix)
    (v : Qc) : Prop :=
  (GMMEstimator.opt st = "scipy" /\
   exists u, Np.matmul_vm mavg Wm = Ok u /\ Np.matmul_vv u mavg = Ok v) \/
  (GMMEstimator.opt st = "torch" /\
   GMMEstimator.weighting_matrix st = "optimal" /\
   exists u, Np.matmul_mv Wm mavg = Ok u /\
             Np.matmul_mv (Np.transpose (Np.newaxis mavg)) u = Ok [v]).

(** The seeded parameter of [jacfwd] with tangents counted from [s];
    [seed] is [seed_from (length theta) 0]. *)
Definition seed_from (k s : nat) (th : vector) : list dual :=
  Np.map2 (fun j t => mkdual t (Np.eye_row k j)) (seq s (length th)) th.

(** The moment condition summed over observations, at [beta]. *)
Definition summed_moments (mc : moment_fn) (zm : matrix) (ym : vector)
    (xm : matrix) (beta : vector) : res vector :=
  res_bind (mc Qc Num_Qc zm ym xm beta)
           (fun Mm => Ok (Np.colsum (Np.ncols Mm) Mm)).

(** An entry of [np.sqrt]'s result that is a non-negative number (not NaN). *)
Definition nonneg_number (e : float_root) : Prop :=
  exists q, e = Root q /\ 0 <= q.

(** An array all of whose entries are zero. *)
Definition all_zero (Mm : matrix) : Prop :=
  Forall (Forall (fun q => q = 0)) Mm.

(** What [__init__] stores: the configuration of an instance. *)
Definition config (s : GMMEstimator.t) : moment_fn * string * string :=
  (GMMEstimator.moment_cond s, GMMEstimator.weighting_matrix s,
   GMMEstimator.opt s).

Definition same_config (a b : GMMEstimator.t) : Prop := config a = config b.

(** ** Sample data *)

Definition qz (a : Z) : Qc := Q2Qc (inject_Z a).

(** The inverse of matrices of order one and two (larger ones are
    rejected); it satisfies [inverse_contract]. *)
Definition inv_upto2 (A : matrix) : res matrix :=
  match A with
  | [[a]] => if Qc_eq_bool a 0 then Raise LinAlgError else Ok [[1 / a]]
  | [[a; b]; [c; d]] =>
      let det := a * d - b * c in
      if Qc_eq_bool det 0 then Raise LinAlgError
      else Ok [[d / det; - b / det]; [- c / det; a / det]]
  | _ => Raise LinAlgError
  end.

(** A draw of [np.random.rand]: all zeros. *)
Definition rand_zeros (m : nat) : vector := Np.zeros m.

(** A minimizer that, after the starting point, tries [2] and returns it. *)
Definition solver_try2 : solver :=
  fun _ _ _ _ => Query [qz 2] (fun _ => Done [qz 2]).

(** Two observations, one instrument equal to the regressor. *)
Definition sample_z : matrix := [[qz 1]; [qz 2]].
Definition sample_y : vector := [qz 1; qz 3].
Definition sample_x : matrix := [[qz 1]; [qz 2]].

(** A second call of [fit] whose instruments have a single row: the
    moment condition broadcasts them, [-z.T @ x] does not. *)
Definition narrow_z : matrix := [[qz 1]].

Definition est_identity : GMMEstimator.t :=
  GMMEstimator.init iv_moment_numpy (Some "identity") None.
Definition est_optimal : GMMEstimator.t :=
  GMMEstimator.init iv_moment_numpy None None.
Definition est_torch : GMMEstimator.t :=
  GMMEstimator.init iv_moment_pytorch None (Some "torch").
Definition est_unsupported : GMMEstimator.t :=
  GMMEstimator.init iv_moment_numpy None (Some "jax").

(** The sample data staged on an instance, as [fit] does before minimizing. *)
Definition staged (s : GMMEstimator.t) : GMMEstimator.t :=
  GMMEstimator.set_k 1 (GMMEstimator.set_n 2 (GMMEstimator.set_x sample_x
    (GMMEstimator.set_y sample_y (GMMEstimator.set_z sample_z s)))).

Definition sample_fit (s : GMMEstimator.t) : res unit * GMMEstimator.t :=
  GMMEstimator.fit inv_upto2 rand_zeros solver_try2 solver_try2
    sample_z sample_y sample_x false None s.

Definition narrow_fit (s : GMMEstimator.t) : res unit * GMMEstimator.t :=
  GMMEstimator.fit inv_upto2 rand_zeros solver_try2 solver_try2
    narrow_z sample_y sample_x false None s.

Definition narrow_solve (s : GMMEstimator.t) : res unit * GMMEstimator.t :=
  GMMEstimator.fit_solve inv_upto2 rand_zeros solver_try2 solver_try2
    narrow_z sample_y sample_x false None s.

(** The instance after a first, ordinary fit. *)
Definition fitted_once : GMMEstimator.t := snd (sample_fit est_identity).

(** Responses that the regressor fits exactly at the parameter [2]. *)
Definition exact_y : vector := [qz 2; qz 4].


(** A moment condition other than the linear IV one: twice its value. *)
Definition scaled_moment : moment_fn :=
  fun A N zm ym xm beta =>
    res_bind (iv_moment_numpy A N zm ym xm beta)
             (fun Mm => Ok (map (map (fun a => num_add a a)) Mm)).

Definition est_scaled : GMMEstimator.t :=
  GMMEstimator.init scaled_moment (Some "identity") None.

Definition staged_exact (s : GMMEstimator.t) : GMMEstimator.t :=
  GMMEstimator.set_y exact_y (staged s).

Definition exact_fit (s : GMMEstimator.t) : res unit * GMMEstimator.t :=
  GMMEstimator.fit inv_upto2 rand_zeros solver_try2 solver_try2
    sample_z exact_y sample_x false None s.



(** *** Sample data in binary64 *)

Section BinarySamples.
Import PrimFloat.

(** The inverse of arrays of order one and two by the adjugate formula. *)
Definition finv_upto2 (A : F64.fmatrix) : res F64.fmatrix :=
  match A with
  | [[a]] =>
      if PrimFloat.eqb a 0%float then Raise LinAlgError
      else Ok [[PrimFloat.div 1%float a]]
  | [[a; b]; [c; d]] =>
      let det := PrimFloat.sub (PrimFloat.mul a d) (PrimFloat.mul b c) in
      if PrimFloat.eqb det 0%float then Raise LinAlgError
      else Ok [[PrimFloat.div d det; PrimFloat.div (PrimFloat.opp b) det];
               [PrimFloat.div (PrimFloat.opp c) det; PrimFloat.div a det]]
  | _ => Raise LinAlgError
  end.

Definition frand_zeros (m : nat) : F64.fvector := F64.zeros m.

(** A minimizer that, after the starting point, tries the point of ones
    and returns it. *)
Definition fsolver_ones : F64.fsolver :=
  fun _ _ x0 _ =>
    F64.Query (map (fun _ => 1%float) x0)
              (fun _ => F64.Done (map (fun _ => 1%float) x0)).

(** Finite data whose moments overflow: [2^700 * 2^700] is beyond the
    largest binary64 number. *)
Definition huge_z : F64.fmatrix := [[0x1p700%float]; [0x1p700%float]].
Definition huge_y : F64.fvector := [0%float; 0%float].
Definition huge_x : F64.fmatrix := [[0x1p700%float]; [(-0x1p700)%float]].

(** Two instruments and two regressors with a nearly singular [z.T @ x]:
    the second row of [x] is about 9.3e-9 and 1.5e-8. *)
Definition unit_z : F64.fmatrix := [[1%float; 0%float]; [0%float; 1%float]].
Definition ones_y : F64.fvector := [1%float; 1%float].
Definition skew_x : F64.fmatrix :=
  [[(-1)%float; (-1)%float]; [(-0x1.4p-27)%float; (-0x1p-26)%float]].

(** The spacing of binary64 numbers at one. *)
Definition ulp1 : float := 0x1p-52%float.

Definition skew_fit : res F64.fitted :=
  F64.fit finv_upto2 frand_zeros fsolver_ones iv_moment_numpy "identity"
    unit_z ones_y skew_x false None.

End BinarySamples.

(** * Properties *)

(** ** Order facts on exact rationals *)

Lemma Qc_sq_nonneg (a : Qc) : 0 <= a * a.
Proof.
  destruct (Qclt_le_dec a 0) as [Hn|Hp].
  - replace (a * a) with ((- a) * (- a)) by ring.
    assert (H : 0 <= - a).
    { apply Qclt_le_weak in Hn. apply Qcopp_le_compat in Hn.
      replace (- 0) with 0 in Hn by ring. exact Hn. }
    replace 0 with (0 * - a) by ring. apply Qcmult_le_compat_r; assumption.
  - replace 0 with (0 * a) by ring. apply Qcmult_le_compat_r; assumption.
Qed.

Lemma Qc_add_nonneg (a b : Qc) : 0 <= a -> 0 <= b -> 0 <= a + b.
Proof.
  intros Ha Hb. replace 0 with (0 + 0) by ring. apply Qcplus_le_compat; assumption.
Qed.

Lemma Qc_mul_nonneg (a b : Qc) : 0 <= a -> 0 <= b -> 0 <= a * b.
Proof.
  intros Ha Hb. replace 0 with (0 * b) by ring. apply Qcmult_le_compat_r; assumption.
Qed.

Lemma Qc_of_nat_nonneg (m : nat) : 0 <= Qc_of_nat m.
Proof.
  unfold Qc_of_nat, Qcle.
  change (0 <= Qred (inject_Z (Z.of_nat m)))%Q.
  rewrite Qred_correct.
  unfold Qle. cbn [Qnum Qden inject_Z]. lia.
Qed.

Lemma Qc_inv_nonneg (a : Qc) : 0 <= a -> 0 <= 1 / a.
Proof.
  intros Ha. unfold Qcdiv. rewrite Qcmult_1_l.
  unfold Qcle in *.
  change (0 <= Qred (/ a))%Q. rewrite Qred_correct.
  apply Qinv_le_0_compat. assumption.
Qed.

Lemma Qcleb_true (a b : Qc) : Qcleb a b = true <-> a <= b.
Proof. unfold Qcleb, Qcle. apply Qle_bool_iff. Qed.

(** ** Linear algebra on arrays *)

Module NpFacts.
Import Np.

Lemma map2_length {A B C : Type} (f : A -> B -> C) u v :
  length (map2 f u v) = Nat.min (length u) (length v).
Proof.
  revert v; induction u as [|a u IH]; intros [|b v]; simpl; auto.
Qed.

Lemma vadd_length u v : length u = length v -> length (vadd u v) = length u.
Proof. intros H. unfold vadd. rewrite map2_length. lia. Qed.

Lemma vscale_length a u : length (vscale a u) = length u.
Proof. apply length_map. Qed.

Lemma zeros_length c : length (zeros c) = c.
Proof. apply repeat_length. Qed.

Lemma dot_comm u v : dot u v = dot v u.
Proof.
  revert v; induction u as [|a u IH]; intros [|b v]; simpl; auto.
  rewrite IH. ring.
Qed.

Lemma dot_zeros_l c v : dot (zeros c) v = 0.
Proof.
  revert v; induction c as [|c IH]; intros [|b v]; simpl; auto.
  rewrite IH. ring.
Qed.

Lemma dot_vscale_l a u v : dot (vscale a u) v = a * dot u v.
Proof.
  revert v; induction u as [|b u IH]; intros [|c v]; simpl; try ring.
  rewrite IH. ring.
Qed.

Lemma dot_vadd_l u w v :
  length u = length w -> dot (vadd u w) v = dot u v + dot w v.
Proof.
  revert w v; induction u as [|a u IH]; intros [|b w] [|c v] H;
    simpl in *; try discriminate; try ring.
  rewrite IH by lia. ring.
Qed.

Lemma vecmat_length c u M :
  Forall (fun r => length r = c) M -> length (vecmat c u M) = c.
Proof.
  intros HM; revert u; induction HM as [|r M Hr HM IH]; intros [|a u]; simpl;
    try apply zeros_length.
  rewrite vadd_length; rewrite vscale_length; auto. rewrite IH; auto.
Qed.

Lemma dot_vecmat c u M v :
  Forall (fun r => length r = c) M ->
  dot (vecmat c u M) v = dot u (matvec M v).
Proof.
  intros HM; revert u; induction HM as [|r M Hr HM IH]; intros [|a u]; simpl;
    try apply dot_zeros_l.
  rewrite dot_vadd_l, dot_vscale_l, IH; auto.
  rewrite vscale_length, vecmat_length; auto.
Qed.

Lemma matvec_matmul M N v :
  Forall (fun r => length r = ncols N) N ->
  matvec (matmul M N) v = matvec M (matvec N v).
Proof.
  intros HN. unfold matvec, matmul. rewrite map_map.
  apply map_ext. intros r. apply dot_vecmat; auto.
Qed.

Lemma matvec_mscale a M v : matvec (mscale a M) v = vscale a (matvec M v).
Proof.
  unfold matvec, mscale, vscale. rewrite !map_map.
  apply map_ext. intros r. apply dot_vscale_l.
Qed.

Lemma transpose_aux_length {A : Type} c (M : list (list A)) :
  Forall (fun r => length r = c) M -> length (transpose_aux c M) = c.
Proof.
  induction 1 as [|r M Hr HM IH]; simpl.
  - apply repeat_length.
  - rewrite map2_length. lia.
Qed.

Lemma map2_cons_rows {A : Type} (r : list A) (T : list (list A)) m :
  Forall (fun t => length t = m) T ->
  Forall (fun t => length t = S m) (map2 cons r T).
Proof.
  intros HT; revert r; induction HT as [|t T Ht HT IH]; intros [|a r]; simpl;
    auto.
  constructor; [simpl; congruence | apply IH].
Qed.

Lemma transpose_aux_rows {A : Type} c (M : list (list A)) :
  Forall (fun r => length r = length M) (transpose_aux c M).
Proof.
  induction M as [|r M IH]; simpl.
  - apply Forall_forall. intros x Hx. apply repeat_spec in Hx. subst. reflexivity.
  - apply map2_cons_rows. exact IH.
Qed.

Lemma matvec_map2_cons_nil (r : vector) (T : matrix) :
  length T = length r -> matvec (map2 cons r T) [] = zeros (length r).
Proof.
  revert T; induction r as [|b r IH]; intros [|t T] HL; simpl in *;
    try discriminate; auto.
  unfold zeros in *. simpl. f_equal. apply IH. lia.
Qed.

Lemma matvec_map2_cons (r : vector) (T : matrix) a u :
  length T = length r ->
  matvec (map2 cons r T) (a :: u) = vadd (vscale a r) (matvec T u).
Proof.
  revert T; induction r as [|b r IH]; intros [|t T] HL; simpl in *;
    try discriminate; auto.
  unfold vadd in *. simpl. f_equal; [ring | apply IH; lia].
Qed.

Lemma matvec_transpose_aux c M u :
  Forall (fun r => length r = c) M ->
  matvec (transpose_aux c M) u = vecmat c u M.
Proof.
  intros HM; revert u; induction HM as [|r M Hr HM IH]; intros u; simpl.
  - destruct u; simpl; unfold matvec, zeros; rewrite map_repeat; reflexivity.
  - pose proof (transpose_aux_length c M HM) as HL.
    destruct u as [|a u].
    + rewrite matvec_map2_cons_nil by congruence. simpl. congruence.
    + rewrite matvec_map2_cons by congruence. rewrite IH. reflexivity.
Qed.

Lemma nth_vadd u v j :
  length u = length v -> nth j (vadd u v) 0 = nth j u 0 + nth j v 0.
Proof.
  revert v j; induction u as [|a u IH]; intros [|b v] [|j] H; simpl in *;
    try discriminate; try ring.
  apply IH. lia.
Qed.

Lemma nth_vscale a u j : nth j (vscale a u) 0 = a * nth j u 0.
Proof.
  revert j; induction u as [|b u IH]; intros [|j]; simpl; try ring. apply IH.
Qed.

Lemma nth_zeros c j : nth j (zeros c) 0 = 0.
Proof.
  revert j; induction c as [|c IH]; intros [|j]; simpl; auto.
Qed.

Lemma nth_vecmat c r B j :
  Forall (fun row => length row = c) B ->
  nth j (vecmat c r B) 0 = dot r (col j B).
Proof.
  intros HB; revert r; induction HB as [|b B Hb HB IH]; intros [|a r]; simpl;
    try apply nth_zeros.
  rewrite nth_vadd, nth_vscale, IH; auto.
  rewrite vscale_length, vecmat_length; auto.
Qed.

Lemma matvec_col A B j :
  Forall (fun row => length row = ncols B) B ->
  matvec A (col j B) = col j (matmul A B).
Proof.
  intros HB. unfold matvec, col at 2, matmul. rewrite map_map.
  apply map_ext. intros r. symmetry. apply nth_vecmat; auto.
Qed.

Lemma dot_indicator u j s :
  dot u (map (fun i => if (j =? i)%nat then 1 else 0) (seq s (length u)))
  = if (s <=? j)%nat then nth (j - s) u 0 else 0.
Proof.
  revert s; induction u as [|a u IH]; intros s; simpl.
  - destruct (s <=? j)%nat; destruct (j - s)%nat; reflexivity.
  - rewrite IH.
    destruct (j =? s)%nat eqn:E1.
    + apply Nat.eqb_eq in E1. subst.
      replace (S s <=? s)%nat with false by (symmetry; apply Nat.leb_gt; lia).
      rewrite Nat.leb_refl, Nat.sub_diag. ring.
    + apply Nat.eqb_neq in E1.
      destruct (s <=? j)%nat eqn:E2.
      * apply Nat.leb_le in E2.
        replace (S s <=? j)%nat with true by (symmetry; apply Nat.leb_le; lia).
        replace (j - s)%nat with (S (j - S s)) by lia. ring.
      * apply Nat.leb_gt in E2.
        replace (S s <=? j)%nat with false by (symmetry; apply Nat.leb_gt; lia).
        ring.
Qed.

Lemma dot_eye_row u j : dot u (eye_row (length u) j) = nth j u 0.
Proof.
  unfold eye_row. rewrite dot_indicator. simpl. rewrite Nat.sub_0_r. reflexivity.
Qed.

Lemma nth_map_seq (f : nat -> Qc) m s j :
  (j < m)%nat -> nth j (map f (seq s m)) 0 = f (s + j)%nat.
Proof.
  revert s j; induction m as [|m IH]; intros s [|j] H; simpl; try lia.
  - f_equal. lia.
  - rewrite IH by lia. f_equal. lia.
Qed.

Lemma col_eye m j : (j < m)%nat -> col j (eye m) = eye_row m j.
Proof.
  intros H. unfold col, eye, eye_row. rewrite map_map.
  apply map_ext. intros i. rewrite nth_map_seq by assumption. simpl.
  rewrite Nat.eqb_sym. reflexivity.
Qed.

Lemma map_nth_seq (g : vector) :
  map (fun i => nth i g 0) (seq 0 (length g)) = g.
Proof.
  induction g as [|a g IH]; simpl; auto.
  f_equal. rewrite <- seq_shift, map_map. exact IH.
Qed.

Lemma matvec_eye g : matvec (eye (length g)) g = g.
Proof.
  unfold matvec, eye. rewrite map_map.
  transitivity (map (fun i => nth i g 0) (seq 0 (length g)));
    [| apply map_nth_seq].
  apply map_ext. intros i. rewrite dot_comm. apply dot_eye_row.
Qed.

Lemma is_ndarray_rows {A : Type} (M : list (list A)) :
  is_ndarray M = true ->
  Forall (fun r => length r = ncols M) M /\ (0 < nrows M)%nat /\ (0 < ncols M)%nat.
Proof.
  unfold is_ndarray. rewrite !andb_true_iff, !Nat.ltb_lt, forallb_forall.
  intros [[H1 H2] H3]. repeat split; auto.
  apply Forall_forall. intros r Hr. apply Nat.eqb_eq. auto.
Qed.

End NpFacts.

(** ** The estimator *)

Module GMMFacts.
Import GMMEstimator.

(** *** Inversion of successful monadic steps *)

Lemma bind_ok {A B} (m : M A) (f : A -> M B) s b s' :
  bind m f s = (Ok b, s') ->
  exists a s1, m s = (Ok a, s1) /\ f a s1 = (Ok b, s').
Proof.
  unfold bind. destruct (m s) as [[a|e] s1]; intros H; [eauto | discriminate].
Qed.
Lemma gets_ok {A} (f : t -> A) s a s' :
  gets f s = (Ok a, s') -> a = f s /\ s' = s.
Proof. unfold gets. intros H; inversion H; auto. Qed.
Lemma getattr_ok {A} (f : t -> option A) s a s' :
  getattr f s = (Ok a, s') -> f s = Some a /\ s' = s.
Proof. unfold getattr. destruct (f s); intros H; inversion H; auto. Qed.
Lemma lift_ok {A} (r : res A) s a s' :
  lift r s = (Ok a, s') -> r = Ok a /\ s' = s.
Proof. unfold lift. intros H; inversion H; auto. Qed.
Lemma assign_ok (f : t -> t) s a s' :
  assign f s = (Ok a, s') -> s' = f s.
Proof. unfold assign. intros H; inversion H; auto. Qed.
Lemma ret_ok {A} (a : A) s b s' :
  ret a s = (Ok b, s') -> b = a /\ s' = s.
Proof. unfold ret. intros H; inversion H; auto. Qed.
Lemma proper_ok {A} e (v : pyval A) s a s' :
  proper e v s = (Ok a, s') -> v = Val a /\ s' = s.
Proof. destruct v; unfold proper, raise, ret; intros H; inversion H; auto. Qed.

Ltac minv :=
  repeat (cbv beta in *; match goal with
  | H : bind _ _ _ = (Ok _, _) |- _ =>
      apply bind_ok in H; destruct H as (? & ? & ? & H)
  | H : gets _ _ = (Ok _, _) |- _ => apply gets_ok in H; destruct H; subst
  | H : getattr _ _ = (Ok _, _) |- _ => apply getattr_ok in H; destruct H; subst
  | H : lift _ _ = (Ok _, _) |- _ => apply lift_ok in H; destruct H; subst
  | H : assign _ _ = (Ok _, _) |- _ => apply assign_ok in H; subst
  | H : ret _ _ = (Ok _, _) |- _ => apply ret_ok in H; destruct H; subst
  | H : proper _ _ _ = (Ok _, _) |- _ => apply proper_ok in H; destruct H; subst
  | H : raise _ _ = (Ok _, _) |- _ => discriminate H
  | H : (if ?b then _ else _) _ = (Ok _, _) |- _ => destruct b eqn:?
  end).

Ltac mrun :=
  unfold bind, gets, getattr, lift, assign, ret, raise, proper, try_except;
  repeat (progress (simpl;
    repeat match goal with
    | H : ?l = _ |- context [?l] => rewrite H
    end)).

Lemma gmm_objective_run inv beta st zm ym xm M mavg Wm v :
  z st = Some zm -> y st = Some ym -> x st = Some xm ->
  moment_cond st Qc Num_Qc zm ym xm beta = Ok M ->
  Np.mean_axis0 M = Ok mavg ->
  weight_spec inv st M Wm ->
  value_spec st mavg Wm v ->
  gmm_objective inv beta st = (Ok (Val v), set_W (Val Wm) st).
Proof.
  unfold weight_spec, value_spec, gmm_objective, optimal_weighting_matrix.
  intros Hz Hy Hx HM Hm Hw Hv.
  destruct Hv as [[Ho (u & Hu & Huv)] | [Ho (Hopt & u & Hu & Huv)]];
    [|apply String.eqb_eq in Hopt; rewrite Hopt in Hw];
    (destruct (weighting_matrix st =? "optimal")%string eqn:Ewm;
     [ destruct Hw as (n_ & P & Hn & Hn0 & HP & Hinv);
       apply Nat.eqb_neq in Hn0 | try discriminate; subst Wm ]);
    mrun; reflexivity.
Qed.

Lemma gmm_objective_val inv beta st v st' :
  gmm_objective inv beta st = (Ok (Val v), st') ->
  exists zm ym xm M mavg Wm,
    z st = Some zm /\ y st = Some ym /\ x st = Some xm /\
    moment_cond st Qc Num_Qc zm ym xm beta = Ok M /\
    Np.mean_axis0 M = Ok mavg /\
    st' = set_W (Val Wm) st /\
    weight_spec inv st M Wm /\
    value_spec st mavg Wm v.
Proof.
  unfold gmm_objective, optimal_weighting_matrix, weight_spec, value_spec.
  intros H. minv; try discriminate.
  all: repeat match goal with
         | H : (_ =? _)%string = true |- _ => apply String.eqb_eq in H
         | H : (_ =? _)%nat = false |- _ => apply Nat.eqb_neq in H
         | H : W (set_W _ _) = Some _ |- _ => simpl in H; inversion H; subst; clear H
         | H : Val _ = Val _ |- _ => inversion H; subst; clear H
         end.
  all: try (match goal with
              | H : match ?l with [] => _ | _ :: _ => _ end _ = _ |- _ =>
                  destruct l as [|? [|]]; minv; try discriminate
              end).
  all: repeat match goal with
         | H : Val _ = Val _ |- _ => inversion H; subst; clear H
         end.
  all: do 6 eexists; repeat apply conj; try eassumption; try reflexivity.
  all: first [ solve [eauto 10] | solve [left; eauto] | solve [right; eauto] ].
Qed.
(** *** Shapes *)

Lemma eye_rows m : Forall (fun r => length r = m) (Np.eye m).
Proof.
  unfold Np.eye, Np.eye_row. apply Forall_forall. intros r Hr.
  apply in_map_iff in Hr. destruct Hr as (i & <- & _).
  rewrite length_map, length_seq. reflexivity.
Qed.

Lemma eye_nrows m : Np.nrows (Np.eye m) = m.
Proof. unfold Np.nrows, Np.eye. rewrite length_map, length_seq. reflexivity. Qed.

Lemma eye_ncols m : Np.ncols (Np.eye m) = m.
Proof.
  destruct m as [|m]; [reflexivity|].
  unfold Np.ncols, Np.eye, Np.eye_row. simpl.
  rewrite length_map, length_seq. reflexivity.
Qed.

Lemma eye_is_ndarray m : (0 < m)%nat -> Np.is_ndarray (Np.eye m) = true.
Proof.
  intros Hm. unfold Np.is_ndarray. rewrite eye_nrows, eye_ncols.
  rewrite !andb_true_iff, !Nat.ltb_lt. repeat split; auto.
  apply forallb_forall. intros r Hr. apply Nat.eqb_eq.
  pose proof (eye_rows m) as H. rewrite Forall_forall in H. auto.
Qed.

Lemma colsum_length c (Mm : matrix) :
  Forall (fun r => length r = c) Mm -> length (Np.colsum c Mm) = c.
Proof.
  induction 1 as [|r Mm Hr HM IH]; simpl.
  - apply NpFacts.zeros_length.
  - rewrite NpFacts.vadd_length; congruence.
Qed.

Lemma mean_axis0_ok (Mm : matrix) mavg :
  Np.mean_axis0 Mm = Ok mavg ->
  Np.is_ndarray Mm = true /\
  mavg = map (fun s => s / Qc_of_nat (Np.nrows Mm))
             (Np.colsum (Np.ncols Mm) Mm) /\
  length mavg = Np.ncols Mm.
Proof.
  unfold Np.mean_axis0. destruct (Np.is_ndarray Mm) eqn:E; [|discriminate].
  intros H; inversion H; subst. repeat split.
  rewrite length_map. apply colsum_length.
  apply NpFacts.is_ndarray_rows in E. tauto.
Qed.

Lemma matmul_mm_ok (A B P : matrix) :
  Np.matmul_mm A B = Ok P ->
  Np.is_ndarray A = true /\ Np.is_ndarray B = true /\
  Np.ncols A = Np.nrows B /\ P = Np.matmul A B.
Proof.
  unfold Np.matmul_mm.
  destruct (Np.is_ndarray A); [|discriminate].
  destruct (Np.is_ndarray B); [|discriminate].
  destruct (Np.ncols A =? Np.nrows B)%nat eqn:E; [|discriminate].
  apply Nat.eqb_eq in E. simpl. intros H; inversion H. auto.
Qed.

Lemma matmul_mv_ok (A : matrix) (v u : vector) :
  Np.matmul_mv A v = Ok u ->
  Np.is_ndarray A = true /\ Np.ncols A = length v /\ u = Np.matvec A v.
Proof.
  unfold Np.matmul_mv.
  destruct (Np.is_ndarray A); [|discriminate].
  destruct (Np.ncols A =? length v)%nat eqn:E; [|discriminate].
  apply Nat.eqb_eq in E. simpl. intros H; inversion H. auto.
Qed.

Lemma matmul_vm_ok (A : matrix) (v u : vector) :
  Np.matmul_vm v A = Ok u ->
  Np.is_ndarray A = true /\ length v = Np.nrows A /\
  u = Np.vecmat (Np.ncols A) v A.
Proof.
  unfold Np.matmul_vm.
  destruct (Np.is_ndarray A); [|discriminate].
  destruct (length v =? Np.nrows A)%nat eqn:E; [|discriminate].
  apply Nat.eqb_eq in E. simpl. intros H; inversion H. auto.
Qed.

Lemma matmul_vv_ok (u v : vector) q :
  Np.matmul_vv u v = Ok q -> length u = length v /\ q = Np.dot u v.
Proof.
  unfold Np.matmul_vv.
  destruct (length u =? length v)%nat eqn:E; [|discriminate].
  apply Nat.eqb_eq in E. intros H; inversion H. auto.
Qed.

Lemma transpose_aux_newaxis (v : vector) :
  Np.transpose_aux 1 (Np.newaxis v) = [v].
Proof.
  induction v as [|a v IH]; simpl; [reflexivity|].
  rewrite IH. reflexivity.
Qed.

Lemma transpose_newaxis (a : Qc) (v : vector) :
  Np.transpose (Np.newaxis (a :: v)) = [a :: v].
Proof. apply (transpose_aux_newaxis (a :: v)). Qed.

(** The value returned by an evaluation is the quadratic form of the mean
    moments in the weighting matrix, on either backend. *)
Lemma value_spec_quad_form st mavg Wm v :
  value_spec st mavg Wm v -> v = quad_form mavg Wm.
Proof.
  unfold value_spec, quad_form.
  intros [[_ (u & Hu & Hv)] | [_ (_ & u & Hu & Hv)]].
  - apply matmul_vm_ok in Hu. destruct Hu as (HW & _ & ->).
    apply matmul_vv_ok in Hv. destruct Hv as (_ & ->).
    apply NpFacts.is_ndarray_rows in HW.
    apply NpFacts.dot_vecmat. tauto.
  - apply matmul_mv_ok in Hu. destruct Hu as (_ & _ & ->).
    apply matmul_mv_ok in Hv. destruct Hv as (Ha & _ & Hv).
    destruct mavg as [|a m]; [discriminate Ha|].
    rewrite transpose_newaxis in Hv. simpl in Hv.
    injection Hv as Hv. exact Hv.
Qed.

(** *** The objective *)

(** C1.  In optimal-weighting mode, every objective evaluation that returns
    a value assigns [W = inv((1/n) * M^T M)], where [M] is the array of
    moments that the moment condition produces at the same [beta]; the
    matrix is recomputed by the call itself, whatever [W] held before
    (nothing is kept from an earlier stage). *)
Theorem optimal_weighting_recomputed inv beta est v est' :
  weighting_matrix est = "optimal" ->
  gmm_objective inv beta est = (Ok (Val v), est') ->
  exists zm ym xm Mm n_ P Wm,
    z est = Some zm /\ y est = Some ym /\ x est = Some xm /\
    n est = Some n_ /\
    moment_cond est Qc Num_Qc zm ym xm beta = Ok Mm /\
    Np.is_ndarray Mm = true /\
    Np.matmul_mm (Np.transpose Mm) Mm = Ok P /\
    inv (Np.mscale (1 / Qc_of_nat n_) P) = Ok Wm /\
    W est' = Some (Val Wm) /\
    forall w0,
      gmm_objective inv beta (set_W w0 est) = (Ok (Val v), est').
Proof.
  intros Hopt H.
  destruct (gmm_objective_val _ _ _ _ _ H)
    as (zm & ym & xm & Mm & mavg & Wm & Hz & Hy & Hx & HM & Hm & -> & Hw & Hv).
  pose proof Hw as Hw'. unfold weight_spec in Hw'. rewrite Hopt in Hw'.
  simpl in Hw'. destruct Hw' as (n_ & P & Hn & Hn0 & HP & Hinv).
  exists zm, ym, xm, Mm, n_, P, Wm.
  repeat split; auto.
  - apply mean_axis0_ok in Hm. tauto.
  - intros w0.
    apply (gmm_objective_run inv beta (set_W w0 est) zm ym xm Mm mavg Wm v);
      assumption.
Qed.



Lemma dot_self_nonneg (g : vector) : 0 <= Np.dot g g.
Proof.
  induction g as [|a g IH]; simpl.
  - apply Qcle_refl.
  - apply Qc_add_nonneg; [apply Qc_sq_nonneg | exact IH].
Qed.

(** C10.  On the scipy backend with a non-"optimal" weighting string, the
    value of the objective is the squared Euclidean norm of the mean moment
    vector; in exact arithmetic it is therefore never negative.  (In
    binary64 it can be NaN: see [F64Facts].) *)
Theorem identity_objective_squared_norm inv beta est v est' :
  opt est = "scipy" ->
  weighting_matrix est <> "optimal" ->
  gmm_objective inv beta est = (Ok (Val v), est') ->
  exists zm ym xm Mm mavg,
    z est = Some zm /\ y est = Some ym /\ x est = Some xm /\
    moment_cond est Qc Num_Qc zm ym xm beta = Ok Mm /\
    Np.mean_axis0 Mm = Ok mavg /\
    v = Np.dot mavg mavg /\
    0 <= v.
Proof.
  intros Hscipy Hopt H.
  destruct (gmm_objective_val _ _ _ _ _ H)
    as (zm & ym & xm & Mm & mavg & Wm & Hz & Hy & Hx & HM & Hm & -> & Hw & Hv).
  apply String.eqb_neq in Hopt.
  unfold weight_spec in Hw. rewrite Hopt in Hw. subst Wm.
  exists zm, ym, xm, Mm, mavg.
  assert (Hval : v = Np.dot mavg mavg).
  { rewrite (value_spec_quad_form _ _ _ _ Hv). unfold quad_form.
    pose proof (mean_axis0_ok _ _ Hm) as (_ & _ & Hlen).
    rewrite <- Hlen. rewrite NpFacts.matvec_eye. reflexivity. }
  repeat split; auto.
  rewrite Hval. apply dot_self_nonneg.
Qed.

(** *** Frames: what a computation leaves untouched *)

Section Preserves.
Variable R : t -> t -> Prop.
Hypothesis R_refl : forall s, R s s.
Hypothesis R_trans : forall a b c, R a b -> R b c -> R a c.

Lemma preserves_bind {A B : Type} (m : M A) (f : A -> M B) :
  preserves R m -> (forall a, preserves R (f a)) -> preserves R (bind m f).
Proof.
  unfold preserves, bind. intros Hm Hf s r s'.
  destruct (m s) as [[a|e] s1] eqn:E; intros H.
  - eapply R_trans; [eapply Hm; eassumption | eapply Hf; eassumption].
  - inversion H; subst. eapply Hm; eassumption.
Qed.

Lemma preserves_ret {A : Type} (a : A) : preserves R (ret a).
Proof. unfold preserves, ret. intros s r s' H; inversion H; auto. Qed.

Lemma preserves_raise {A : Type} e : preserves R (@raise A e).
Proof. unfold preserves, raise. intros s r s' H; inversion H; auto. Qed.

Lemma preserves_gets {A : Type} (f : t -> A) : preserves R (gets f).
Proof. unfold preserves, gets. intros s r s' H; inversion H; auto. Qed.

Lemma preserves_getattr {A : Type} (f : t -> option A) :
  preserves R (getattr f).
Proof.
  unfold preserves, getattr. intros s r s'.
  destruct (f s); intros H; inversion H; auto.
Qed.

Lemma preserves_lift {A : Type} (r : res A) : preserves R (lift r).
Proof. unfold preserves, lift. intros s r0 s' H; inversion H; auto. Qed.

Lemma preserves_proper {A : Type} e (v : pyval A) : preserves R (proper e v).
Proof. destruct v; [apply preserves_raise | apply preserves_ret]. Qed.

Lemma preserves_assign (f : t -> t) :
  (forall s, R s (f s)) -> preserves R (assign f).
Proof. unfold preserves, assign. intros Hf s r s' H; inversion H; auto. Qed.

Lemma preserves_try_except {A : Type} (body handler : M A) :
  preserves R body -> preserves R handler ->
  preserves R (try_except body handler).
Proof.
  unfold preserves, try_except. intros Hb Hh s r s'.
  destruct (body s) as [[a|e] s1] eqn:E; intros H.
  - inversion H; subst. eapply Hb; eassumption.
  - eapply R_trans; [eapply Hb; eassumption | eapply Hh; eassumption].
Qed.

Lemma preserves_run_strategy (f : vector -> M (pyval Qc)) (s : strategy) :
  (forall b, preserves R (f b)) -> preserves R (run_strategy f s).
Proof.
  intros Hf. induction s as [r|beta next IH]; simpl.
  - apply preserves_ret.
  - apply preserves_bind; [apply Hf|]. intros v.
    apply preserves_bind; [apply preserves_proper|]. intros q. apply IH.
Qed.

Lemma preserves_minimize sv (f : vector -> M (pyval Qc)) x0 m vb :
  (forall b, preserves R (f b)) -> preserves R (minimize sv f x0 m vb).
Proof.
  intros Hf. unfold minimize.
  apply preserves_bind; [apply Hf|]. intros v.
  apply preserves_bind; [apply preserves_proper|]. intros q.
  apply preserves_run_strategy. exact Hf.
Qed.
End Preserves.

Ltac preserves_step :=
  first
    [ apply preserves_bind; try assumption; [ | intros ? ]
    | apply preserves_ret; assumption
    | apply preserves_raise; assumption
    | apply preserves_gets; assumption
    | apply preserves_getattr; assumption
    | apply preserves_lift; assumption
    | apply preserves_proper; assumption
    | apply preserves_assign; try assumption; intros ?; reflexivity
    | match goal with
      | |- preserves _ (if ?b then _ else _) => destruct b
      | |- preserves _ (match ?v with _ => _ end) => destruct v
      end ].

Lemma same_but_W_refl s : same_but_W s s.
Proof. reflexivity. Qed.

Lemma same_but_W_trans a b c :
  same_but_W a b -> same_but_W b c -> same_but_W a c.
Proof. unfold same_but_W. congruence. Qed.

Lemma same_but_covariance_refl s : same_but_covariance s s.
Proof. reflexivity. Qed.

Lemma same_but_covariance_trans a b c :
  same_but_covariance a b -> same_but_covariance b c ->
  same_but_covariance a c.
Proof. unfold same_but_covariance. congruence. Qed.

(** An objective evaluation assigns nothing but [W], also when it raises. *)
Lemma gmm_objective_frame inv beta :
  preserves same_but_W (gmm_objective inv beta).
Proof.
  pose proof same_but_W_refl. pose proof same_but_W_trans.
  unfold gmm_objective, optimal_weighting_matrix.
  repeat preserves_step.
Qed.

Lemma minimize_frame inv sv x0 m vb :
  preserves same_but_W (minimize sv (gmm_objective inv) x0 m vb).
Proof.
  apply preserves_minimize;
    [apply same_but_W_refl | apply same_but_W_trans |].
  intros b. apply gmm_objective_frame.
Qed.

(** The covariance step assigns nothing but [Gamma], [vtheta],
    [std_errors] and [jac_est], also when it raises. *)
Lemma jacobian_frame :
  preserves same_but_covariance jacobian_moment_cond.
Proof.
  pose proof same_but_covariance_refl. pose proof same_but_covariance_trans.
  unfold jacobian_moment_cond.
  repeat preserves_step.
Qed.

Lemma fit_covariance_frame inv :
  preserves same_but_covariance (fit_covariance inv).
Proof.
  pose proof same_but_covariance_refl. pose proof same_but_covariance_trans.
  unfold fit_covariance.
  apply preserves_bind; auto. apply jacobian_frame. intros g.
  repeat preserves_step.
Qed.

(** *** The minimizer *)

(** When a plan runs to completion, the instance it leaves is the one left
    by its last evaluation of the objective. *)
Lemma run_strategy_last (f : vector -> M (pyval Qc)) (s : strategy) :
  forall b sb st r st',
    (exists v, f b sb = (Ok (Val v), st)) ->
    run_strategy f s st = (Ok r, st') ->
    exists v,
      f (fst (last_evaluation f s b sb st))
        (snd (last_evaluation f s b sb st)) = (Ok (Val v), st').
Proof.
  induction s as [r0|beta next IH]; intros b sb st r st' Hprev Hrun;
    simpl in *.
  - apply ret_ok in Hrun. destruct Hrun as [_ ->]. exact Hprev.
  - minv. rewrite H. eapply IH; [eexists; eassumption | eassumption].
Qed.

Lemma minimize_last sv (f : vector -> M (pyval Qc)) x0 m vb st r st' :
  minimize sv f x0 m vb st = (Ok r, st') ->
  exists v,
    f (fst (minimize_last_evaluation sv f x0 m vb st))
      (snd (minimize_last_evaluation sv f x0 m vb st)) = (Ok (Val v), st').
Proof.
  unfold minimize, minimize_last_evaluation. intros H. minv. rewrite H0.
  eapply run_strategy_last; [eexists; eassumption | eassumption].
Qed.

(** *** [fit] *)

Lemma set_W_same (s : t) w : W s = Some w -> set_W w s = s.
Proof. destruct s; simpl; intros ->; reflexivity. Qed.

(** The first part of [fit] returns exactly when the backend is one of the
    two supported ones and its minimizer returns; it then leaves the
    minimizer's instance with [theta] assigned. *)
Lemma fit_solve_ok inv rand sv1 sv2 z_ y_ x_ vb fm est st1 :
  fit_solve inv rand sv1 sv2 z_ y_ x_ vb fm est = (Ok tt, st1) ->
  (opt est = "scipy" \/ opt est = "torch") /\
  exists r stm,
    minimize (solver_of sv1 sv2 (opt est)) (gmm_objective inv)
             (rand (Np.ncols x_)) (method_of fm (opt est)) vb
             (stage z_ y_ x_ est) = (Ok r, stm) /\
    st1 = set_theta r stm.
Proof.
  unfold fit_solve, solver_of, method_of, stage. intros H. minv;
    try discriminate.
  all: repeat match goal with
         | H : k (set_k _ _) = Some _ |- _ =>
             simpl in H; injection H as <-
         | H : (_ =? _)%string = true |- _ => apply String.eqb_eq in H
         end.
  - split; [auto|].
    match goal with H : opt est = _ |- _ => rewrite H in * end.
    simpl. eauto.
  - split; [auto|].
    match goal with H : W _ = Some _ |- _ => rewrite (set_W_same _ _ H) end.
    eauto.
Qed.

(** C9.  With an [opt] string other than "scipy" and "torch", [fit] raises
    at [result.x] (the local [result] was never bound): nothing has been
    assigned on the instance, no backend is substituted and no error about
    the configuration is reported. *)
Theorem unsupported_backend_raises inv rand sv1 sv2 z_ y_ x_ vb fm est :
  opt est <> "scipy" ->
  opt est <> "torch" ->
  fit inv rand sv1 sv2 z_ y_ x_ vb fm est = (Raise UnboundLocalError, est).
Proof.
  intros Hs Ht. apply String.eqb_neq in Hs, Ht.
  unfold fit, fit_solve. mrun. reflexivity.
Qed.

(** C6.  Once the minimizer has returned, [fit] completes: [theta] holds
    the minimizer's result, and if the covariance computation raises, for
    whatever reason, [std_errors] is [None] and nothing propagates. *)
Theorem covariance_failure_degrades inv rand sv1 sv2 z_ y_ x_ vb fm
    est st1 e st2 :
  fit_solve inv rand sv1 sv2 z_ y_ x_ vb fm est = (Ok tt, st1) ->
  fit_covariance inv st1 = (Raise e, st2) ->
  exists est' r stm,
    fit inv rand sv1 sv2 z_ y_ x_ vb fm est = (Ok tt, est') /\
    minimize (solver_of sv1 sv2 (opt est)) (gmm_objective inv)
             (rand (Np.ncols x_)) (method_of fm (opt est)) vb
             (stage z_ y_ x_ est) = (Ok r, stm) /\
    theta est' = Some r /\
    std_errors est' = Some PyNone.
Proof.
  intros Hsolve Hcov.
  destruct (fit_solve_ok _ _ _ _ _ _ _ _ _ _ _ Hsolve)
    as (_ & r & stm & Hmin & ->).
  exists (set_std_errors PyNone st2), r, stm.
  pose proof (fit_covariance_frame inv _ _ _ Hcov) as Hfr.
  apply (f_equal theta) in Hfr. simpl in Hfr.
  repeat split; auto.
  unfold fit, bind, try_except, assign. rewrite Hsolve, Hcov. reflexivity.
Qed.

Lemma fit_ok inv rand sv1 sv2 z_ y_ x_ vb fm est est' :
  fit inv rand sv1 sv2 z_ y_ x_ vb fm est = (Ok tt, est') ->
  exists st1,
    fit_solve inv rand sv1 sv2 z_ y_ x_ vb fm est = (Ok tt, st1) /\
    (fit_covariance inv st1 = (Ok tt, est') \/
     exists e st2, fit_covariance inv st1 = (Raise e, st2) /\
                   est' = set_std_errors PyNone st2).
Proof.
  unfold fit. intros H. apply bind_ok in H.
  destruct H as ([] & st1 & Hsolve & H). exists st1. split; [exact Hsolve|].
  unfold try_except, assign in H.
  destruct (fit_covariance inv st1) as [[[]|e] st2].
  - left. inversion H; reflexivity.
  - right. exists e, st2. inversion H; auto.
Qed.

(** What a successful covariance step has computed and assigned. *)
Lemma fit_covariance_ok inv st1 est' :
  fit_covariance inv st1 = (Ok tt, est') ->
  exists G st2 Wm A B V n_,
    jacobian_moment_cond st1 = (Ok G, st2) /\
    W st1 = Some (Val Wm) /\ n st1 = Some n_ /\
    Np.matmul_mm (Np.transpose G) Wm = Ok A /\
    Np.matmul_mm A G = Ok B /\
    inv B = Ok V /\
    est' = set_std_errors
             (Val (Np.sqrt (Np.vscale (Qc_of_nat n_) (Np.diag V))))
             (set_vtheta V (set_Gamma G st2)).
Proof.
  unfold fit_covariance. intros H. minv.
  repeat match goal with
         | H : Gamma (set_Gamma _ _) = Some _ |- _ =>
             simpl in H; injection H as <-
         | H : vtheta (set_vtheta _ _) = Some _ |- _ =>
             simpl in H; injection H as <-
         | H : W (set_Gamma _ _) = Some _ |- _ => simpl in H
         | H : n (set_vtheta _ _) = Some _ |- _ => simpl in H
         end.
  match goal with
  | H : jacobian_moment_cond _ = _ |- _ =>
      pose proof (jacobian_frame _ _ _ H) as Hfr
  end.
  pose proof (f_equal W Hfr) as HW. pose proof (f_equal n Hfr) as Hn.
  simpl in HW, Hn.
  do 7 eexists. repeat apply conj; try eassumption; try reflexivity;
    congruence.
Qed.

(** What [fit] has computed when it leaves standard errors. *)
Lemma fit_std_errors_inv inv rand sv1 sv2 z_ y_ x_ vb fm
    est est' se :
  fit inv rand sv1 sv2 z_ y_ x_ vb fm est = (Ok tt, est') ->
  std_errors est' = Some (Val se) ->
  exists st1 G Wm A B V,
    fit_solve inv rand sv1 sv2 z_ y_ x_ vb fm est = (Ok tt, st1) /\
    fst (jacobian_moment_cond st1) = Ok G /\
    Gamma est' = Some G /\ W est' = Some (Val Wm) /\
    vtheta est' = Some V /\ n est' = Some (Np.nrows x_) /\
    Np.matmul_mm (Np.transpose G) Wm = Ok A /\
    Np.matmul_mm A G = Ok B /\
    inv B = Ok V /\
    se = Np.sqrt (Np.vscale (Qc_of_nat (Np.nrows x_)) (Np.diag V)) /\
    exists v stl,
      gmm_objective inv
        (fst (minimize_last_evaluation
                (solver_of sv1 sv2 (opt est)) (gmm_objective inv)
                (rand (Np.ncols x_)) (method_of fm (opt est)) vb
                (stage z_ y_ x_ est)))
        (snd (minimize_last_evaluation
                (solver_of sv1 sv2 (opt est)) (gmm_objective inv)
                (rand (Np.ncols x_)) (method_of fm (opt est)) vb
                (stage z_ y_ x_ est)))
      = (Ok (Val v), stl) /\
      W stl = Some (Val Wm).
Proof.
  intros Hfit Hse.
  destruct (fit_ok _ _ _ _ _ _ _ _ _ _ _ Hfit) as (st1 & Hsolve & Hcov).
  destruct Hcov as [Hcov | (e & st2 & _ & ->)]; [|discriminate Hse].
  destruct (fit_covariance_ok _ _ _ Hcov)
    as (G & st2 & Wm & A & B & V & n_ & HJ & HW & Hn & HA & HB & HV & ->).
  destruct (fit_solve_ok _ _ _ _ _ _ _ _ _ _ _ Hsolve)
    as (_ & r & stm & Hmin & ->).
  simpl in HW, Hn, Hse. injection Hse as <-.
  pose proof (minimize_frame _ _ _ _ _ _ _ _ Hmin) as Hfr.
  pose proof (f_equal n Hfr) as Hn'. simpl in Hn'.
  assert (n_ = Np.nrows x_) by congruence. subst n_.
  pose proof (jacobian_frame _ _ _ HJ) as Hfr2.
  pose proof (f_equal W Hfr2) as HW2. pose proof (f_equal n Hfr2) as Hn2.
  simpl in HW2, Hn2.
  destruct (minimize_last _ _ _ _ _ _ _ _ Hmin) as (v & Hlast).
  exists (set_theta r stm), G, Wm, A, B, V.
  repeat apply conj; auto.
  - rewrite HJ. reflexivity.
  - simpl. congruence.
  - simpl. congruence.
  - exists v, stm. split; assumption.
Qed.


(** *** Positive semidefinite weighting and the sign of the variances *)

Lemma ndarray_ncols_transpose (G : matrix) :
  Np.is_ndarray (Np.transpose G) = true ->
  Np.ncols (Np.transpose G) = Np.nrows G.
Proof.
  intros HT. apply NpFacts.is_ndarray_rows in HT.
  destruct HT as (_ & Hr & _).
  pose proof (NpFacts.transpose_aux_rows (Np.ncols G) G) as Hrows.
  unfold Np.ncols at 1. unfold Np.transpose in *.
  destruct (Np.transpose_aux (Np.ncols G) G) as [|t T]; simpl in *; [lia|].
  inversion Hrows; subst. assumption.
Qed.

Lemma ndarray_nrows_transpose (G : matrix) :
  Np.is_ndarray G = true -> Np.nrows (Np.transpose G) = Np.ncols G.
Proof.
  intros HG. apply NpFacts.is_ndarray_rows in HG.
  apply NpFacts.transpose_aux_length. tauto.
Qed.

Lemma matvec_transpose (G : matrix) u :
  Np.is_ndarray G = true ->
  Np.matvec (Np.transpose G) u = Np.vecmat (Np.ncols G) u G.
Proof.
  intros HG. apply NpFacts.is_ndarray_rows in HG.
  apply NpFacts.matvec_transpose_aux. tauto.
Qed.

Lemma psd_eye L : (0 < L)%nat -> psd L (Np.eye L).
Proof.
  intros HL. unfold psd.
  rewrite eye_nrows, eye_ncols, eye_is_ndarray by assumption.
  repeat split. intros g Hg. unfold quad_form. subst L.
  rewrite NpFacts.matvec_eye. apply dot_self_nonneg.
Qed.

(** The inverse of a scaled Gram matrix [c * M^T M], [0 <= c], is positive
    semidefinite. *)
Lemma psd_gram_inverse inv (Mm : matrix) c P Wm :
  inverse_contract inv ->
  0 <= c ->
  Np.matmul_mm (Np.transpose Mm) Mm = Ok P ->
  inv (Np.mscale c P) = Ok Wm ->
  psd (Np.ncols Mm) Wm.
Proof.
  intros Hinv Hc HP HW.
  apply matmul_mm_ok in HP. destruct HP as (HT & HM & _ & ->).
  destruct (Hinv _ _ HW) as (HWa & Hr & Hcol & Hmul).
  assert (HL : Np.nrows (Np.mscale c (Np.matmul (Np.transpose Mm) Mm))
               = Np.ncols Mm).
  { unfold Np.nrows, Np.mscale, Np.matmul. rewrite !length_map.
    apply ndarray_nrows_transpose. exact HM. }
  rewrite HL in *.
  unfold psd. repeat split; auto.
  intros g Hg. unfold quad_form.
  set (w := Np.matvec Wm g).
  set (h := Np.matvec Mm w).
  assert (Hgw : g = Np.vscale c (Np.vecmat (Np.ncols Mm) h Mm)).
  { rewrite <- (NpFacts.matvec_eye g) at 1. rewrite Hg, <- Hmul.
    rewrite NpFacts.matvec_matmul
      by (apply NpFacts.is_ndarray_rows in HWa; tauto).
    fold w. rewrite NpFacts.matvec_mscale. f_equal.
    rewrite NpFacts.matvec_matmul
      by (apply NpFacts.is_ndarray_rows in HM; tauto).
    fold h. apply matvec_transpose. exact HM. }
  rewrite Hgw at 1.
  rewrite NpFacts.dot_vscale_l, NpFacts.dot_vecmat
    by (apply NpFacts.is_ndarray_rows in HM; tauto).
  fold h. apply Qc_mul_nonneg; [exact Hc | apply dot_self_nonneg].
Qed.

Lemma nth_col (V : matrix) i j :
  nth i (Np.col j V) 0 = nth j (nth i V []) 0.
Proof.
  unfold Np.col. revert i; induction V as [|r V IH]; intros [|i]; simpl;
    auto; destruct j; reflexivity.
Qed.

(** Every diagonal entry of [inv(G^T W G)] is non-negative when [W] is
    positive semidefinite. *)
Lemma sandwich_diag_nonneg inv L Wm G A B V :
  inverse_contract inv ->
  psd L Wm ->
  Np.matmul_mm (Np.transpose G) Wm = Ok A ->
  Np.matmul_mm A G = Ok B ->
  inv B = Ok V ->
  Forall (fun q => 0 <= q) (Np.diag V).
Proof.
  intros Hinv (HWa & HWr & HWc & Hpsd) HA HB HV.
  apply matmul_mm_ok in HA. destruct HA as (HT & _ & Hdim & ->).
  apply matmul_mm_ok in HB. destruct HB as (_ & HG & _ & ->).
  destruct (Hinv _ _ HV) as (HVa & HVr & HVc & Hmul).
  rewrite (ndarray_ncols_transpose _ HT) in Hdim.
  assert (Hk : Np.nrows
                 (Np.matmul (Np.matmul (Np.transpose G) Wm) G)
               = Np.ncols G).
  { unfold Np.nrows, Np.matmul. rewrite !length_map.
    apply ndarray_nrows_transpose. exact HG. }
  rewrite Hk in *.
  unfold Np.diag. rewrite HVr, HVc, Nat.min_id.
  apply Forall_forall. intros q Hq. apply in_map_iff in Hq.
  destruct Hq as (i & <- & Hi). apply in_seq in Hi. simpl in Hi.
  rewrite <- nth_col.
  set (u := Np.col i V).
  assert (Hu : length u = Np.ncols G).
  { unfold u, Np.col. rewrite length_map. exact HVr. }
  set (g := Np.matvec G u).
  assert (Hg : length g = L).
  { unfold g, Np.matvec. rewrite length_map.
    change (Np.nrows G = L). congruence. }
  assert (Hquad : nth i u 0 = quad_form g Wm).
  { rewrite <- (NpFacts.dot_eye_row u i). rewrite Hu.
    rewrite <- NpFacts.col_eye by lia. rewrite <- Hmul.
    rewrite <- NpFacts.matvec_col
      by (apply NpFacts.is_ndarray_rows in HVa; tauto).
    fold u.
    rewrite NpFacts.matvec_matmul
      by (apply NpFacts.is_ndarray_rows in HG; tauto).
    fold g.
    rewrite NpFacts.matvec_matmul
      by (apply NpFacts.is_ndarray_rows in HWa; tauto).
    rewrite matvec_transpose by exact HG.
    rewrite NpFacts.dot_comm.
    rewrite NpFacts.dot_vecmat
      by (apply NpFacts.is_ndarray_rows in HG; tauto).
    fold g. unfold quad_form. apply NpFacts.dot_comm. }
  rewrite Hquad. apply Hpsd. exact Hg.
Qed.

(** The weighting matrix assigned by an objective evaluation is positive
    semidefinite, in either mode. *)
Lemma weight_spec_psd inv st (Mm Wm : matrix) :
  inverse_contract inv ->
  Np.is_ndarray Mm = true ->
  weight_spec inv st Mm Wm ->
  psd (Np.ncols Mm) Wm.
Proof.
  intros Hinv HM. unfold weight_spec.
  destruct (weighting_matrix st =? "optimal")%string.
  - intros (n_ & P & _ & _ & HP & HW).
    eapply psd_gram_inverse; try eassumption.
    apply Qc_inv_nonneg, Qc_of_nat_nonneg.
  - intros ->. apply psd_eye.
    apply NpFacts.is_ndarray_rows in HM. tauto.
Qed.

Lemma sqrt_nonneg (c : Qc) (d : vector) :
  0 <= c -> Forall (fun q => 0 <= q) d ->
  Forall nonneg_number (Np.sqrt (Np.vscale c d)).
Proof.
  intros Hc Hd. unfold Np.sqrt, Np.vscale. rewrite map_map.
  apply Forall_forall. intros e He. apply in_map_iff in He.
  destruct He as (q & <- & Hq). rewrite Forall_forall in Hd.
  assert (H : 0 <= c * q) by (apply Qc_mul_nonneg; auto).
  unfold Np.sqrt1. apply Qcleb_true in H. rewrite H.
  exists (c * q). split; [reflexivity | apply Qcleb_true; exact H].
Qed.

(** C8.  In exact arithmetic and with an inverse that meets
    [inverse_contract], whenever [fit] leaves standard errors (rather than
    [None]), every entry is a non-negative number: no entry is NaN, because
    every variance handed to [np.sqrt] is non-negative.  (In binary64 the
    entries can be NaN: see [F64Facts].) *)
Theorem std_errors_nonneg inv rand sv1 sv2 z_ y_ x_ vb fm est est' se :
  inverse_contract inv ->
  fit inv rand sv1 sv2 z_ y_ x_ vb fm est = (Ok tt, est') ->
  std_errors est' = Some (Val se) ->
  Forall nonneg_number se.
Proof.
  intros Hinv Hfit Hse.
  destruct (fit_std_errors_inv _ _ _ _ _ _ _ _ _ _ _ _ Hfit Hse)
    as (st1 & G & Wm & A & B & V & _ & _ & _ & _ & _ & _ & HA & HB & HV
        & -> & v & stl & Hobj & HWl).
  destruct (gmm_objective_val _ _ _ _ _ Hobj)
    as (zm & ym & xm & Mm & mavg & Wm' & _ & _ & _ & _ & Hm & -> & Hw & _).
  simpl in HWl. injection HWl as ->.
  apply mean_axis0_ok in Hm. destruct Hm as (HM & _ & _).
  pose proof (weight_spec_psd _ _ _ _ Hinv HM Hw) as Hpsd.
  apply sqrt_nonneg; [apply Qc_of_nat_nonneg|].
  eapply sandwich_diag_nonneg; eassumption.
Qed.

(** *** A later [fit] against a fresh instance *)

Lemma same_inputs_fields a b :
  same_inputs a b ->
  moment_cond a = moment_cond b /\ weighting_matrix a = weighting_matrix b /\
  opt a = opt b /\ z a = z b /\ y a = y b /\ x a = x b /\ n a = n b /\
  k a = k b.
Proof.
  unfold same_inputs, clear_results. intros H. injection H. intuition.
Qed.

(** A successful objective evaluation depends on the configuration and the
    staged data only. *)
Lemma gmm_objective_same_inputs inv beta a b v a' :
  same_inputs a b ->
  gmm_objective inv beta a = (Ok (Val v), a') ->
  exists Wm,
    a' = set_W (Val Wm) a /\
    gmm_objective inv beta b = (Ok (Val v), set_W (Val Wm) b).
Proof.
  intros Hab H.
  destruct (same_inputs_fields _ _ Hab)
    as (Hmc & Hwm & Ho & Hz & Hy & Hx & Hn & _).
  destruct (gmm_objective_val _ _ _ _ _ H)
    as (zm & ym & xm & Mm & mavg & Wm & Hza & Hya & Hxa & HM & Hm & -> & Hw
        & Hv).
  exists Wm. split; [reflexivity|].
  apply (gmm_objective_run inv beta b zm ym xm Mm mavg Wm v); try congruence.
  - unfold weight_spec in *. rewrite <- Hwm, <- Hn. exact Hw.
  - unfold value_spec in *. rewrite <- Ho, <- Hwm. exact Hv.
Qed.

Lemma run_strategy_same_inputs inv (s : strategy) :
  forall a b r a',
    same_inputs a b -> W a = W b ->
    run_strategy (gmm_objective inv) s a = (Ok r, a') ->
    exists b',
      run_strategy (gmm_objective inv) s b = (Ok r, b') /\
      same_inputs a' b' /\ W a' = W b'.
Proof.
  induction s as [r0|beta next IH]; intros a b r a' Hab HW Hrun;
    simpl in *.
  - apply ret_ok in Hrun. destruct Hrun as [-> ->].
    exists b. repeat split; assumption.
  - minv.
    match goal with
    | H : gmm_objective _ _ _ = _ |- _ =>
        destruct (gmm_objective_same_inputs _ _ _ _ _ _ Hab H)
          as (Wm & -> & Hb)
    end.
    unfold bind at 1. rewrite Hb. simpl.
    eapply IH; [ | | eassumption]; [exact Hab | reflexivity].
Qed.

Lemma minimize_same_inputs inv sv x0 m vb a b r a' :
  same_inputs a b ->
  minimize sv (gmm_objective inv) x0 m vb a = (Ok r, a') ->
  exists b',
    minimize sv (gmm_objective inv) x0 m vb b = (Ok r, b') /\
    same_inputs a' b' /\ W a' = W b' /\ exists Wm, W a' = Some (Val Wm).
Proof.
  unfold minimize. intros Hab H. minv.
  match goal with
  | H : gmm_objective _ _ _ = _ |- _ =>
      destruct (gmm_objective_same_inputs _ _ _ _ _ _ Hab H)
        as (Wm & -> & Hb)
  end.
  assert (Hab1 : same_inputs (set_W (Val Wm) a) (set_W (Val Wm) b))
    by exact Hab.
  destruct (run_strategy_same_inputs inv _ _ _ _ _ Hab1 eq_refl H)
    as (b' & Hrun & Hab' & HW').
  destruct (run_strategy_last _ _ _ _ _ _ _ (ex_intro _ _ Hb) Hrun)
    as (v' & Hlast).
  exists b'. unfold bind at 1. rewrite Hb. simpl.
  repeat split; auto.
  destruct (gmm_objective_val _ _ _ _ _ Hlast)
    as (_ & _ & _ & _ & _ & Wm' & _ & _ & _ & _ & _ & Hb' & _ & _).
  exists Wm'. rewrite HW', Hb'. reflexivity.
Qed.

(** The converse of [fit_solve_ok]. *)
Lemma fit_solve_run inv rand sv1 sv2 z_ y_ x_ vb fm est r stm :
  opt est = "scipy" \/ opt est = "torch" ->
  minimize (solver_of sv1 sv2 (opt est)) (gmm_objective inv)
           (rand (Np.ncols x_)) (method_of fm (opt est)) vb
           (stage z_ y_ x_ est) = (Ok r, stm) ->
  (exists Wm, W stm = Some (Val Wm)) ->
  fit_solve inv rand sv1 sv2 z_ y_ x_ vb fm est = (Ok tt, set_theta r stm).
Proof.
  unfold fit_solve, solver_of, method_of, stage.
  intros [Ho | Ho] Hmin (Wm & HW); rewrite Ho in *; simpl in Hmin.
  - unfold bind, gets, assign. simpl. rewrite Ho. simpl.
    unfold getattr. simpl. unfold bind. rewrite Hmin. reflexivity.
  - unfold bind, gets, assign. simpl. rewrite Ho. simpl.
    unfold getattr. simpl. unfold bind. rewrite Hmin. simpl.
    rewrite HW. simpl. rewrite (set_W_same _ _ HW). reflexivity.
Qed.

Ltac same_fields a b Hab :=
  destruct a as [mca wma oa za ya xa na ka Wa tha Ga va sa ja];
  destruct b as [mcb wmb ob zb yb xb nb kb Wb thb Gb vb sb jb];
  unfold same_inputs, clear_results in Hab; simpl in *;
  injection Hab as ? ? ? ? ? ? ? ?; subst.

Lemma jacobian_same_inputs a b rj aj :
  same_inputs a b -> theta a = theta b ->
  opt a = "scipy" \/ opt a = "torch" ->
  jacobian_moment_cond a = (rj, aj) ->
  exists bj,
    jacobian_moment_cond b = (rj, bj) /\
    match rj with
    | Ok g => aj = set_jac_est g a /\ bj = set_jac_est g b
    | Raise _ => aj = a /\ bj = b
    end.
Proof.
  intros Hab Hth Ho. same_fields a b Hab.
  unfold jacobian_moment_cond, bind, gets, getattr, lift, assign, ret.
  destruct Ho as [-> | ->]; simpl.
  - destruct zb as [zm|]; simpl; [|intros H; inversion H; eauto].
    destruct xb as [xm|]; simpl; [|intros H; inversion H; eauto].
    destruct (Np.matmul_mm (Np.mneg (Np.transpose zm)) xm) as [g|e];
      simpl; intros H; inversion H; eauto.
  - destruct zb as [zm|]; simpl; [|intros H; inversion H; eauto].
    destruct yb as [ym|]; simpl; [|intros H; inversion H; eauto].
    destruct xb as [xm|]; simpl; [|intros H; inversion H; eauto].
    destruct thb as [th|]; simpl; [|intros H; inversion H; eauto].
    destruct (jacfwd mcb zm ym xm th) as [j|e];
      simpl; intros H; inversion H; eauto.
Qed.

(** The covariance step depends on the configuration, the staged data,
    [W] and [theta] only. *)
Lemma fit_covariance_same_inputs inv a b ra a2 :
  same_inputs a b -> W a = W b -> theta a = theta b ->
  opt a = "scipy" \/ opt a = "torch" ->
  fit_covariance inv a = (ra, a2) ->
  exists b2,
    fit_covariance inv b = (ra, b2) /\
    (ra = Ok tt ->
     Gamma a2 = Gamma b2 /\ vtheta a2 = vtheta b2 /\
     std_errors a2 = std_errors b2 /\ jac_est a2 = jac_est b2) /\
    (forall G st, jacobian_moment_cond a = (Ok G, st) ->
                  Gamma a2 = Gamma b2 /\ jac_est a2 = jac_est b2).
Proof.
  intros Hab HW Hth Ho H.
  unfold fit_covariance in H |- *.
  unfold bind at 1 in H. unfold bind at 1.
  destruct (jacobian_moment_cond a) as [rj aj] eqn:HJ.
  destruct (jacobian_same_inputs _ _ _ _ Hab Hth Ho HJ) as (bj & HJb & Hrel).
  rewrite HJb. clear HJb. destruct rj as [g|e].
  - destruct Hrel as [-> ->]. clear HJ. revert H. same_fields a b Hab.
    unfold bind, gets, getattr, lift, assign, ret, proper, raise. simpl.
    destruct Wb as [[|w]|]; simpl;
      try (intros H; inversion H; eexists; split; [reflexivity|];
           split; [discriminate | intros; simpl; auto]).
    destruct (Np.matmul_mm (Np.transpose g) w) as [A|e]; simpl;
      try (intros H; inversion H; eexists; split; [reflexivity|];
           split; [discriminate | intros; simpl; auto]).
    destruct (Np.matmul_mm A g) as [B|e]; simpl;
      try (intros H; inversion H; eexists; split; [reflexivity|];
           split; [discriminate | intros; simpl; auto]).
    destruct (inv B) as [V|e]; simpl;
      try (intros H; inversion H; eexists; split; [reflexivity|];
           split; [discriminate | intros; simpl; auto]).
    destruct nb as [n_|]; simpl;
      intros H; inversion H; eexists; (split; [reflexivity|]);
      split; intros; simpl; auto; discriminate.
  - destruct Hrel as [-> ->]. inversion H; subst.
    eexists. split; [reflexivity|]. split; [discriminate|].
    intros G st HG. congruence.
Qed.

Lemma same_but_covariance_fields a b :
  same_but_covariance a b ->
  same_inputs a b /\ W a = W b /\ theta a = theta b.
Proof.
  unfold same_but_covariance, clear_covariance, same_inputs, clear_results.
  intros H. injection H as ? ? ? ? ? ? ? ? ? ?.
  repeat split; congruence.
Qed.

Lemma same_but_W_fields a b :
  same_but_W a b -> same_inputs a b /\ opt a = opt b.
Proof.
  unfold same_but_W, set_W, same_inputs, clear_results.
  intros H. injection H as ? ? ? ? ? ? ? ? ? ? ? ? ?.
  repeat split; congruence.
Qed.

Lemma same_inputs_trans a b c :
  same_inputs a b -> same_inputs b c -> same_inputs a c.
Proof. unfold same_inputs. congruence. Qed.

Lemma same_inputs_sym a b : same_inputs a b -> same_inputs b a.
Proof. unfold same_inputs. congruence. Qed.

(** A later [fit] that completes leaves the same [theta], [W] and
    [std_errors] (and the same staged data) as the same call on a fresh
    instance; [Gamma] and [jac_est] too once its Jacobian has been
    computed, and [vtheta] once it has produced standard errors. *)
Lemma fit_matches_fresh inv rand sv1 sv2 z_ y_ x_ vb fm est est' :
  fit inv rand sv1 sv2 z_ y_ x_ vb fm est = (Ok tt, est') ->
  exists ref',
    fit inv rand sv1 sv2 z_ y_ x_ vb fm (fresh est) = (Ok tt, ref') /\
    same_inputs est' ref' /\
    theta est' = theta ref' /\
    W est' = W ref' /\
    std_errors est' = std_errors ref' /\
    (forall st1 G st2,
       fit_solve inv rand sv1 sv2 z_ y_ x_ vb fm est = (Ok tt, st1) ->
       jacobian_moment_cond st1 = (Ok G, st2) ->
       Gamma est' = Gamma ref' /\ jac_est est' = jac_est ref') /\
    (std_errors est' <> Some PyNone ->
     Gamma est' = Gamma ref' /\ vtheta est' = vtheta ref' /\
     jac_est est' = jac_est ref').
Proof.
  intros Hfit.
  destruct (fit_ok _ _ _ _ _ _ _ _ _ _ _ Hfit) as (st1 & Hsolve & Hcov).
  destruct (fit_solve_ok _ _ _ _ _ _ _ _ _ _ _ Hsolve)
    as (Ho & r & stm & Hmin & ->).
  assert (Hst : same_inputs (stage z_ y_ x_ est)
                            (stage z_ y_ x_ (fresh est))) by reflexivity.
  destruct (minimize_same_inputs _ _ _ _ _ _ _ _ _ Hst Hmin)
    as (stmb & Hminb & Hab & HW & Wm & HWm).
  assert (Hsolveb : fit_solve inv rand sv1 sv2 z_ y_ x_ vb fm (fresh est)
                    = (Ok tt, set_theta r stmb)).
  { apply fit_solve_run; [exact Ho | exact Hminb |].
    exists Wm. congruence. }
  pose proof (minimize_frame _ _ _ _ _ _ _ _ Hmin) as Hfr.
  apply same_but_W_fields in Hfr. destruct Hfr as (_ & Hopt).
  assert (Ho1 : opt (set_theta r stm) = "scipy"
                \/ opt (set_theta r stm) = "torch").
  { simpl. rewrite <- Hopt. exact Ho. }
  assert (Hab1 : same_inputs (set_theta r stm) (set_theta r stmb))
    by exact Hab.
  assert (HW1 : W (set_theta r stm) = W (set_theta r stmb)) by exact HW.
  assert (Hth1 : theta (set_theta r stm) = theta (set_theta r stmb))
    by reflexivity.
  assert (Hsolve_same :
            forall st1 : t,
              fit_solve inv rand sv1 sv2 z_ y_ x_ vb fm est = (Ok tt, st1) ->
              st1 = set_theta r stm) by (intros; congruence).
  destruct Hcov as [Hcov | (e & st2 & Hcov & ->)].
  - destruct (fit_covariance_same_inputs _ _ _ _ _ Hab1 HW1 Hth1 Ho1 Hcov)
      as (b2 & Hcovb & Hok & HJ).
    destruct (Hok eq_refl) as (HG & Hv & Hs & Hj).
    pose proof Hcov as Hcov'. pose proof Hcovb as Hcovb'.
    apply fit_covariance_frame, same_but_covariance_fields in Hcov', Hcovb'.
    destruct Hcov' as (Ha1 & Ha2 & Ha3), Hcovb' as (Hb1 & Hb2 & Hb3).
    exists b2.
    split; [unfold fit, bind, try_except; rewrite Hsolveb, Hcovb;
            reflexivity|].
    split; [eapply same_inputs_trans; [apply same_inputs_sym; exact Ha1|];
            eapply same_inputs_trans; [exact Hab1 | exact Hb1]|].
    repeat apply conj; auto; congruence.
  - destruct (fit_covariance_same_inputs _ _ _ _ _ Hab1 HW1 Hth1 Ho1 Hcov)
      as (b2 & Hcovb & _ & HJ).
    pose proof Hcov as Hcov'. pose proof Hcovb as Hcovb'.
    apply fit_covariance_frame, same_but_covariance_fields in Hcov', Hcovb'.
    destruct Hcov' as (Ha1 & Ha2 & Ha3), Hcovb' as (Hb1 & Hb2 & Hb3).
    exists (set_std_errors PyNone b2). repeat apply conj.
    + unfold fit, bind, try_except, assign. rewrite Hsolveb, Hcovb.
      reflexivity.
    + change (same_inputs st2 b2).
      eapply same_inputs_trans; [apply same_inputs_sym; exact Ha1|].
      eapply same_inputs_trans; [exact Hab1 | exact Hb1].
    + simpl. congruence.
    + simpl. congruence.
    + reflexivity.
    + intros st1 G st3 Hs1 HG. rewrite (Hsolve_same _ Hs1) in HG.
      simpl. eapply HJ. exact HG.
    + simpl. intros Hne. exfalso. apply Hne. reflexivity.
Qed.

(** C7, as amended.  A later call of [fit] that completes overwrites
    [theta], [W] and the standard errors (with [None] when its covariance
    computation fails): they are those of the same call on a fresh
    instance.  [Gamma] is overwritten as soon as the later call's Jacobian
    computation succeeds, [vtheta] when standard errors are produced. *)
Theorem refit_matches_fresh_fit inv rand sv1 sv2 z_ y_ x_ vb fm est est' :
  fit inv rand sv1 sv2 z_ y_ x_ vb fm est = (Ok tt, est') ->
  exists ref',
    fit inv rand sv1 sv2 z_ y_ x_ vb fm (fresh est) = (Ok tt, ref') /\
    same_inputs est' ref' /\
    theta est' = theta ref' /\
    W est' = W ref' /\
    std_errors est' = std_errors ref' /\
    (forall st1 G st2,
       fit_solve inv rand sv1 sv2 z_ y_ x_ vb fm est = (Ok tt, st1) ->
       jacobian_moment_cond st1 = (Ok G, st2) ->
       Gamma est' = Gamma ref' /\ jac_est est' = jac_est ref') /\
    (std_errors est' <> Some PyNone ->
     Gamma est' = Gamma ref' /\ vtheta est' = vtheta ref' /\
     jac_est est' = jac_est ref').
Proof. apply fit_matches_fresh. Qed.

(** *** The sample inverse meets the contract *)

Lemma Qc_eq_bool_false (a b : Qc) : Qc_eq_bool a b = false -> a <> b.
Proof. unfold Qc_eq_bool. destruct (Qc_eq_dec a b); congruence. Qed.

Lemma inv_upto2_contract : inverse_contract inv_upto2.
Proof.
  intros A V.
  destruct A as [|[|a [|b [|? ?]]] [|[|c [|d [|? ?]]] [|? ?]]]; simpl;
    try discriminate.
  - destruct (Qc_eq_bool a 0) eqn:E; [discriminate|].
    apply Qc_eq_bool_false in E. intros H; injection H as <-.
    repeat split. unfold Np.matmul, Np.eye, Np.eye_row, Np.vadd, Np.vscale.
    simpl. do 2 f_equal. field. exact E.
  - destruct (Qc_eq_bool (a * d - b * c) 0) eqn:E; [discriminate|].
    apply Qc_eq_bool_false in E. intros H; injection H as <-.
    repeat split. unfold Np.matmul, Np.eye, Np.eye_row, Np.vadd, Np.vscale.
    simpl. repeat f_equal; field; exact E.
Qed.

(** *** The properties at the sample data *)

Lemma optimal_weighting_recomputed_witness :
  weighting_matrix (staged est_optimal) = "optimal" /\
  gmm_objective inv_upto2 [qz 2] (staged est_optimal)
  = (Ok (Val (Q2Qc (9 # 10))),
     set_W (Val [[Q2Qc (2 # 5)]]) (staged est_optimal)) /\
  forall w0,
    gmm_objective inv_upto2 [qz 2] (set_W w0 (staged est_optimal))
    = (Ok (Val (Q2Qc (9 # 10))),
       set_W (Val [[Q2Qc (2 # 5)]]) (staged est_optimal)).
Proof.
  split; [reflexivity|]. split; [vm_compute; reflexivity|].
  destruct (optimal_weighting_recomputed inv_upto2 [qz 2]
              (staged est_optimal) (Q2Qc (9 # 10))
              (set_W (Val [[Q2Qc (2 # 5)]]) (staged est_optimal)))
    as (zm & ym & xm & Mm & n_ & P & Wm & _ & _ & _ & _ & _ & _ & _ & _ & _
        & H);
    [reflexivity | vm_compute; reflexivity | exact H].
Defined.



Lemma identity_objective_squared_norm_witness :
  opt (staged est_identity) = "scipy" /\
  weighting_matrix (staged est_identity) <> "optimal" /\
  gmm_objective inv_upto2 [qz 2] (staged est_identity)
  = (Ok (Val (Q2Qc (9 # 4))),
     set_W (Val (Np.eye 1)) (staged est_identity)) /\
  0 <= Q2Qc (9 # 4).
Proof.
  split; [reflexivity|]. split; [discriminate|].
  split; [vm_compute; reflexivity|].
  destruct (identity_objective_squared_norm inv_upto2 [qz 2]
              (staged est_identity) (Q2Qc (9 # 4))
              (set_W (Val (Np.eye 1)) (staged est_identity)))
    as (zm & ym & xm & Mm & mavg & _ & _ & _ & _ & _ & _ & H);
    [reflexivity | discriminate | vm_compute; reflexivity | exact H].
Defined.

Lemma unsupported_backend_raises_witness :
  opt est_unsupported <> "scipy" /\
  opt est_unsupported <> "torch" /\
  sample_fit est_unsupported = (Raise UnboundLocalError, est_unsupported).
Proof.
  split; [discriminate|]. split; [discriminate|].
  apply unsupported_backend_raises; discriminate.
Defined.


Lemma std_errors_nonneg_witness :
  inverse_contract inv_upto2 /\
  sample_fit est_optimal = (Ok tt, snd (sample_fit est_optimal)) /\
  std_errors (snd (sample_fit est_optimal))
  = Some (Val [Root (Q2Qc (2 # 10))]) /\
  Forall nonneg_number [Root (Q2Qc (2 # 10))].
Proof.
  split; [exact inv_upto2_contract|].
  split; [vm_compute; reflexivity|]. split; [vm_compute; reflexivity|].
  apply (std_errors_nonneg inv_upto2 rand_zeros solver_try2 solver_try2
           sample_z sample_y sample_x false None est_optimal
           (snd (sample_fit est_optimal)));
    [exact inv_upto2_contract | vm_compute; reflexivity
    | vm_compute; reflexivity].
Defined.

Lemma covariance_failure_degrades_witness :
  narrow_solve est_identity = (Ok tt, snd (narrow_solve est_identity)) /\
  fit_covariance inv_upto2 (snd (narrow_solve est_identity))
  = (Raise ValueError, snd (narrow_solve est_identity)) /\
  exists est' r,
    narrow_fit est_identity = (Ok tt, est') /\
    theta est' = Some r /\ std_errors est' = Some PyNone.
Proof.
  split; [vm_compute; reflexivity|]. split; [vm_compute; reflexivity|].
  destruct (covariance_failure_degrades inv_upto2 rand_zeros solver_try2
              solver_try2 narrow_z sample_y sample_x false None
              est_identity (snd (narrow_solve est_identity)) ValueError
              (snd (narrow_solve est_identity)))
    as (est' & r & stm & Hfit & _ & Hth & Hse);
    [vm_compute; reflexivity | vm_compute; reflexivity
    | exists est', r; repeat split; assumption].
Defined.

Lemma refit_matches_fresh_fit_witness :
  narrow_fit fitted_once = (Ok tt, snd (narrow_fit fitted_once)) /\
  exists ref',
    narrow_fit (fresh fitted_once) = (Ok tt, ref') /\
    theta (snd (narrow_fit fitted_once)) = theta ref' /\
    W (snd (narrow_fit fitted_once)) = W ref' /\
    std_errors (snd (narrow_fit fitted_once)) = std_errors ref'.
Proof.
  split; [vm_compute; reflexivity|].
  destruct (refit_matches_fresh_fit inv_upto2 rand_zeros solver_try2
              solver_try2 narrow_z sample_y sample_x false None
              fitted_once (snd (narrow_fit fitted_once)))
    as (ref' & Hfit & _ & Hth & HW & Hse & _);
    [vm_compute; reflexivity
    | exists ref'; repeat split; assumption].
Defined.

(** C7, as stated, fails.  After an ordinary first fit, a second call whose
    instruments have one row completes (the moment condition broadcasts
    them) but its Jacobian [-z.T @ x] raises; [std_errors] becomes [None]
    while [Gamma] and [vtheta] still hold the values of the first fit,
    which the same second call on a fresh instance would not have. *)
Lemma refit_keeps_stale_Gamma :
  sample_fit est_identity = (Ok tt, fitted_once) /\
  fst (narrow_fit fitted_once) = Ok tt /\
  std_errors (snd (narrow_fit fitted_once)) = Some PyNone /\
  Gamma fitted_once = Some [[qz (-5)]] /\
  Gamma (snd (narrow_fit fitted_once)) = Gamma fitted_once /\
  vtheta (snd (narrow_fit fitted_once)) = vtheta fitted_once /\
  vtheta fitted_once = Some [[Q2Qc (1 # 25)]] /\
  Gamma (snd (narrow_fit (fresh fitted_once))) = None /\
  Gamma (snd (narrow_fit fitted_once))
  <> Gamma (snd (narrow_fit (fresh fitted_once))).
Proof.
  do 8 (split; [vm_compute; reflexivity|]).
  vm_compute. discriminate.
Qed.

(** *** Forward-mode differentiation of the linear IV moments *)

Lemma nth_eye_row k s i :
  nth i (Np.eye_row k s) 0 = if (s =? i)%nat && (i <? k)%nat then 1 else 0.
Proof.
  unfold Np.eye_row. destruct (i <? k)%nat eqn:E.
  - apply Nat.ltb_lt in E. rewrite NpFacts.nth_map_seq by assumption.
    simpl. rewrite andb_true_r. reflexivity.
  - apply Nat.ltb_ge in E. rewrite andb_false_r.
    apply nth_overflow. rewrite length_map, length_seq. exact E.
Qed.

Lemma eye_row_length k s : length (Np.eye_row k s) = k.
Proof. unfold Np.eye_row. rewrite length_map, length_seq. reflexivity. Qed.

(** The dot product of a constant row with the seeded parameter: its value
    is the dot product, its derivative the row itself (placed from [s]). *)
Lemma dual_dot_seed k (r : vector) :
  forall s th,
    length r = length th ->
    primal (@Arr.dot dual (Num_dual k) (map (const_dual k) r) (seed_from k s th))
    = Np.dot r th /\
    length (tangent (@Arr.dot dual (Num_dual k) (map (const_dual k) r)
                       (seed_from k s th))) = k /\
    forall i,
      nth i (tangent (@Arr.dot dual (Num_dual k) (map (const_dual k) r)
                        (seed_from k s th))) 0
      = if (s <=? i)%nat && (i <? k)%nat then nth (i - s) r 0 else 0.
Proof.
  induction r as [|a r IH]; intros s [|t th] Hlen; simpl in Hlen;
    try discriminate.
  - simpl. repeat split; [apply NpFacts.zeros_length|].
    intros i. rewrite NpFacts.nth_zeros.
    destruct ((s <=? i)%nat && (i <? k)%nat); destruct (i - s)%nat;
      reflexivity.
  - injection Hlen as Hlen.
    destruct (IH (S s) th Hlen) as (Hp & Hl & Hn).
    unfold seed_from in *. simpl.
    repeat split.
    + rewrite Hp. reflexivity.
    + rewrite NpFacts.vadd_length; rewrite NpFacts.vadd_length;
        rewrite ?NpFacts.vscale_length, ?eye_row_length,
          ?NpFacts.zeros_length; auto.
    + intros i.
      rewrite NpFacts.nth_vadd, NpFacts.nth_vadd, !NpFacts.nth_vscale,
        NpFacts.nth_zeros, nth_eye_row, Hn.
      * destruct (i <? k)%nat eqn:Ek; rewrite ?andb_false_r, ?andb_true_r;
          [|ring].
        destruct (s =? i)%nat eqn:E1.
        -- apply Nat.eqb_eq in E1. subst i.
           rewrite Nat.leb_refl, Nat.sub_diag.
           replace (S s <=? s)%nat with false
             by (symmetry; apply Nat.leb_gt; lia).
           simpl. ring.
        -- apply Nat.eqb_neq in E1.
           destruct (s <=? i)%nat eqn:E2.
           ++ apply Nat.leb_le in E2.
              replace (S s <=? i)%nat with true
                by (symmetry; apply Nat.leb_le; lia).
              replace (i - s)%nat with (S (i - S s)) by lia. simpl. ring.
           ++ apply Nat.leb_gt in E2.
              replace (S s <=? i)%nat with false
                by (symmetry; apply Nat.leb_gt; lia).
              ring.
      * rewrite !NpFacts.vscale_length, eye_row_length,
          NpFacts.zeros_length. reflexivity.
      * rewrite NpFacts.vadd_length;
          rewrite ?NpFacts.vscale_length, ?eye_row_length,
            ?NpFacts.zeros_length; auto.
Qed.

Lemma dual_dot_seed_row (r th : vector) :
  length r = length th ->
  @Arr.dot dual (Num_dual (length th)) (map (const_dual (length th)) r) (seed th)
  = mkdual (Np.dot r th) r.
Proof.
  intros Hlen.
  destruct (dual_dot_seed (length th) r 0 th Hlen) as (Hp & Hl & Hn).
  change (seed_from (length th) 0 th) with (seed th) in *.
  destruct (Arr.dot (map (const_dual (length th)) r) (seed th)) as [p tg].
  simpl in *. f_equal; [exact Hp|].
  apply (nth_ext _ _ 0 0); [congruence|].
  intros i Hi. rewrite Hn. simpl. rewrite Nat.sub_0_r.
  rewrite Hl in Hi. apply Nat.ltb_lt in Hi. rewrite Hi. reflexivity.
Qed.

Lemma is_ndarray_map {A B : Type} (f : A -> B) (Mm : list (list A)) :
  Np.is_ndarray (map (map f) Mm) = Np.is_ndarray Mm.
Proof.
  unfold Np.is_ndarray, Np.nrows, Np.ncols.
  rewrite length_map.
  assert (Hc : length (hd [] (map (map f) Mm)) = length (hd [] Mm))
    by (destruct Mm; simpl; [reflexivity | apply length_map]).
  rewrite Hc. f_equal.
  induction Mm as [|r Mm IH]; simpl; [reflexivity|].
  rewrite length_map. f_equal.
  clear Hc. revert IH. generalize (length (hd [] (r :: Mm))).
  intros c _. induction Mm as [|r' Mm IH']; simpl; [reflexivity|].
  rewrite length_map, IH'. reflexivity.
Qed.

Lemma ncols_map {A B : Type} (f : A -> B) (Mm : list (list A)) :
  Np.ncols (map (map f) Mm) = Np.ncols Mm.
Proof. destruct Mm; simpl; [reflexivity | apply length_map]. Qed.

Lemma seed_length th : length (seed th) = length th.
Proof.
  unfold seed. rewrite NpFacts.map2_length, length_seq. lia.
Qed.

Lemma map2_map_map {A B A' B' C : Type} (f : A' -> B' -> C)
    (g : A -> A') (h : B -> B') u v :
  Np.map2 f (map g u) (map h v) = Np.map2 (fun a b => f (g a) (h b)) u v.
Proof.
  revert v; induction u as [|a u IH]; intros [|b v]; simpl; auto.
  rewrite IH. reflexivity.
Qed.

Lemma map_map2 {A B C D : Type} (g : C -> D) (f : A -> B -> C) u v :
  map g (Np.map2 f u v) = Np.map2 (fun a b => g (f a b)) u v.
Proof.
  revert v; induction u as [|a u IH]; intros [|b v]; simpl; auto.
  rewrite IH. reflexivity.
Qed.

Lemma map2_ext_in {A B C : Type} (f g : A -> B -> C) u v :
  (forall a b, In a u -> In b v -> f a b = g a b) ->
  Np.map2 f u v = Np.map2 g u v.
Proof.
  revert v; induction u as [|a u IH]; intros [|b v] H; simpl; auto.
  f_equal; [apply H; left; reflexivity|].
  apply IH. intros a' b' Ha Hb. apply H; right; assumption.
Qed.

(** [x @ beta] on dual numbers. *)
Lemma dual_matmul_mv (xm : matrix) (th : vector) :
  Np.is_ndarray xm = true ->
  Np.ncols xm = length th ->
  @Arr.matmul_mv dual (Num_dual (length th))
    (map (map (const_dual (length th))) xm) (seed th)
  = Ok (map (fun r => mkdual (Np.dot r th) r) xm).
Proof.
  intros Hx Hk. unfold Arr.matmul_mv.
  rewrite is_ndarray_map, Hx, ncols_map, seed_length, Hk, Nat.eqb_refl.
  simpl. f_equal. rewrite map_map. apply map_ext_in. intros r Hr.
  apply dual_dot_seed_row.
  apply NpFacts.is_ndarray_rows in Hx. destruct Hx as (Hrows & _).
  rewrite Forall_forall in Hrows. rewrite (Hrows r Hr). exact Hk.
Qed.

Lemma broadcast_same_length {B C D : Type} (f : B -> C -> D) u v :
  length u = length v -> Arr.broadcast f u v = Ok (Np.map2 f u v).
Proof.
  intros H. unfold Arr.broadcast. rewrite H, Nat.eqb_refl. reflexivity.
Qed.

Lemma broadcast_singleton {B C D : Type} (f : B -> C -> D) u b :
  Arr.broadcast f u [b] = Ok (map (fun a => f a b) u).
Proof.
  unfold Arr.broadcast.
  destruct u as [|a [|a' u]]; simpl; reflexivity.
Qed.

Lemma newaxis_is_ndarray {A : Type} (v : list A) :
  v <> [] -> Np.is_ndarray (Np.newaxis v) = true.
Proof.
  destruct v as [|a v]; [congruence|]. intros _.
  unfold Np.is_ndarray, Np.newaxis. simpl.
  apply forallb_forall. intros r Hr. apply in_map_iff in Hr.
  destruct Hr as (b & <- & _). reflexivity.
Qed.

Lemma sequence_broadcast_rows {A : Type} (f : A -> A -> A) Z rs :
  Arr.sequence (Np.map2 (Arr.broadcast f) Z (Np.newaxis rs))
  = Ok (Np.map2 (fun zr r => map (fun a => f a r) zr) Z rs).
Proof.
  revert rs; induction Z as [|zr Z IH]; intros [|r rs]; simpl; auto.
  rewrite broadcast_singleton. simpl. rewrite IH. reflexivity.
Qed.

(** [z * r[:, newaxis]] for aligned [z] and [r]. *)
Lemma broadcast2_column {A : Type} `{Num A} (f : A -> A -> A)
    (Z : list (list A)) (rs : list A) :
  Np.is_ndarray Z = true ->
  length Z = length rs ->
  Arr.broadcast2 f Z (Np.newaxis rs)
  = Ok (Np.map2 (fun zr r => map (fun a => f a r) zr) Z rs).
Proof.
  intros HZ Hlen. unfold Arr.broadcast2. rewrite HZ.
  rewrite newaxis_is_ndarray.
  - simpl. rewrite broadcast_same_length
      by (unfold Np.newaxis; rewrite length_map; exact Hlen).
    simpl. apply sequence_broadcast_rows.
  - intros ->. apply NpFacts.is_ndarray_rows in HZ.
    unfold Np.nrows in HZ. simpl in Hlen. lia.
Qed.

(** The derivative of one moment [a * (y - x . beta)] in [beta]. *)
Lemma moment_tangent k a p (xr : vector) :
  length xr = k ->
  Np.vadd (Np.vscale a (vsub (Np.zeros k) xr)) (Np.vscale p (Np.zeros k))
  = Np.vscale (- a) xr.
Proof.
  intros <-. induction xr as [|b xr IH]; simpl; [reflexivity|].
  unfold Np.vadd, Np.vscale, vsub, Np.zeros in *. simpl.
  f_equal; [ring | exact IH].
Qed.

Lemma tangents_iv k (th : vector) (zm : matrix) (ym : vector) (xm : matrix) :
  Forall (fun r => length r = k) xm ->
  length zm = length xm ->
  length ym = length xm ->
  map (map tangent)
      (Np.map2 (fun zr r => map (fun a => @num_mul dual (Num_dual k) a r) zr)
         (map (map (const_dual k)) zm)
         (Np.map2 (@num_sub dual (Num_dual k))
            (map (const_dual k) ym)
            (map (fun r => mkdual (Np.dot r th) r) xm)))
  = Np.map2 (fun zr xr => map (fun a => Np.vscale (- a) xr) zr) zm xm.
Proof.
  intros Hx. revert zm ym.
  induction Hx as [|xr xm Hxr Hx IH]; intros [|zr zm] [|y0 ym] Hz Hy;
    simpl in *; try discriminate; auto.
  f_equal.
  - rewrite !map_map. apply map_ext. intros a. simpl.
    apply moment_tangent. exact Hxr.
  - apply IH; lia.
Qed.

(** What [jacfwd] returns for the linear IV moments on aligned data: for
    observation [i], instrument [l] and parameter [j], [- z_il * x_ij]. *)
Lemma jacfwd_iv_moment (zm : matrix) (ym : vector) (xm : matrix)
    (th : vector) :
  Np.is_ndarray zm = true -> Np.is_ndarray xm = true ->
  Np.nrows zm = Np.nrows xm -> length ym = Np.nrows xm ->
  Np.ncols xm = length th ->
  jacfwd iv_moment_pytorch zm ym xm th
  = Ok (Np.map2 (fun zr xr => map (fun a => Np.vscale (- a) xr) zr) zm xm).
Proof.
  intros Hz Hx Hn Hy Hk. unfold jacfwd, iv_moment_pytorch.
  rewrite dual_matmul_mv by assumption. simpl res_bind.
  rewrite broadcast_same_length
    by (rewrite !length_map; exact Hy).
  simpl res_bind.
  rewrite (@broadcast2_column dual (Num_dual (length th))).
  - simpl res_bind. f_equal. apply tangents_iv.
    + apply NpFacts.is_ndarray_rows in Hx. destruct Hx as (Hrows & _).
      rewrite Hk in Hrows. exact Hrows.
    + exact Hn.
    + exact Hy.
  - rewrite is_ndarray_map. exact Hz.
  - rewrite NpFacts.map2_length. repeat rewrite length_map.
    unfold Np.nrows in *. rewrite Hy, Nat.min_id. exact Hn.
Qed.

Lemma mneg_map2_cons (r : vector) (T : matrix) :
  Np.mneg (Np.map2 cons r T) = Np.map2 cons (map Qcopp r) (Np.mneg T).
Proof.
  unfold Np.mneg. rewrite map_map2.
  rewrite (map2_map_map cons Qcopp (map Qcopp)). reflexivity.
Qed.

Lemma mneg_repeat_nil L : Np.mneg (repeat [] L) = repeat [] L.
Proof. unfold Np.mneg. rewrite map_repeat. reflexivity. Qed.

Lemma vecmat_cons_rows k (zr xr : vector) (xm T : matrix) :
  map (fun r => Np.vecmat k r (xr :: xm)) (Np.map2 cons (map Qcopp zr) T)
  = Np.map2 Np.vadd (map (fun a => Np.vscale (- a) xr) zr)
      (map (fun t => Np.vecmat k t xm) T).
Proof.
  revert T; induction zr as [|a zr IH]; intros [|t T]; simpl; auto.
  rewrite IH. reflexivity.
Qed.

(** [(-z.T) @ x] is the sum over observations of the outer products
    [- z_i x_i^T]. *)
Lemma neg_gram_as_sum L k (zm xm : matrix) :
  length zm = length xm ->
  map (fun r => Np.vecmat k r xm) (Np.mneg (Np.transpose_aux L zm))
  = fold_right Np.madd (Np.mzeros L k)
      (Np.map2 (fun zr xr => map (fun a => Np.vscale (- a) xr) zr) zm xm).
Proof.
  revert xm; induction zm as [|zr zm IH]; intros [|xr xm] Hlen;
    simpl in *; try discriminate.
  - rewrite mneg_repeat_nil, map_repeat. reflexivity.
  - injection Hlen as Hlen.
    rewrite <- IH by exact Hlen.
    rewrite mneg_map2_cons. apply vecmat_cons_rows.
Qed.

Lemma is_ndarray_intro {A : Type} (Mm : list (list A)) c :
  (0 < length Mm)%nat -> (0 < c)%nat ->
  Forall (fun r => length r = c) Mm ->
  Np.is_ndarray Mm = true /\ Np.ncols Mm = c.
Proof.
  intros Hn Hc Hrows.
  assert (Hcol : Np.ncols Mm = c).
  { unfold Np.ncols. destruct Mm as [|r Mm]; simpl in *; [lia|].
    inversion Hrows; assumption. }
  split; [|exact Hcol].
  unfold Np.is_ndarray. rewrite Hcol. unfold Np.nrows.
  rewrite !andb_true_iff, !Nat.ltb_lt. repeat split; auto.
  apply forallb_forall. intros r Hr. apply Nat.eqb_eq.
  rewrite Forall_forall in Hrows. auto.
Qed.

Lemma neg_transpose_is_ndarray (zm : matrix) :
  Np.is_ndarray zm = true ->
  Np.is_ndarray (Np.mneg (Np.transpose zm)) = true /\
  Np.ncols (Np.mneg (Np.transpose zm)) = Np.nrows zm.
Proof.
  intros Hz. pose proof (NpFacts.is_ndarray_rows _ Hz) as (Hrows & Hn & Hc).
  apply is_ndarray_intro.
  - unfold Np.mneg, Np.transpose. rewrite length_map.
    rewrite NpFacts.transpose_aux_length; assumption.
  - exact Hn.
  - unfold Np.mneg. apply Forall_forall. intros r Hr.
    apply in_map_iff in Hr. destruct Hr as (r' & <- & Hr').
    rewrite length_map.
    pose proof (NpFacts.transpose_aux_rows (Np.ncols zm) zm) as HT.
    rewrite Forall_forall in HT. apply HT. exact Hr'.
Qed.

(** The sum over observations of the forward-mode Jacobian of the linear
    IV moments is [(-z.T) @ x]. *)
Lemma sum_jacfwd_iv_moment (zm : matrix) (ym : vector) (xm : matrix)
    (th : vector) :
  Np.is_ndarray zm = true -> Np.is_ndarray xm = true ->
  Np.nrows zm = Np.nrows xm -> length ym = Np.nrows xm ->
  Np.ncols xm = length th ->
  exists J,
    jacfwd iv_moment_pytorch zm ym xm th = Ok J /\
    Np.sum_axis0 J = Np.matmul (Np.mneg (Np.transpose zm)) xm.
Proof.
  intros Hz Hx Hn Hy Hk. eexists. split.
  - apply jacfwd_iv_moment; assumption.
  - unfold Np.sum_axis0, Np.matmul, Np.transpose.
    rewrite (neg_gram_as_sum (Np.ncols zm) (Np.ncols xm)) by exact Hn.
    f_equal.
    pose proof (NpFacts.is_ndarray_rows _ Hz) as (_ & Hnz & Hcz).
    pose proof (NpFacts.is_ndarray_rows _ Hx) as (_ & Hnx & Hcx).
    unfold Np.nrows, Np.ncols in *.
    destruct zm as [|[|a zr] zm]; simpl in *; try lia.
    destruct xm as [|xr xm]; simpl in *; try lia.
    rewrite !length_map, NpFacts.vscale_length. reflexivity.
Qed.

Lemma Arr_dot_Qc (u v : vector) : @Arr.dot Qc Num_Qc u v = Np.dot u v.
Proof.
  revert v; induction u as [|a u IH]; intros [|b v]; simpl; auto;
    try (rewrite IH; reflexivity).
Qed.

(** The linear IV moments on aligned data: entry [(i, l)] is
    [z_il * (y_i - x_i . beta)]. *)
Lemma iv_moment_numpy_aligned (zm : matrix) (ym : vector) (xm : matrix)
    (beta : vector) :
  Np.is_ndarray zm = true -> Np.is_ndarray xm = true ->
  Np.nrows zm = Np.nrows xm -> length ym = Np.nrows xm ->
  Np.ncols xm = length beta ->
  iv_moment_numpy Qc Num_Qc zm ym xm beta
  = Ok (Np.map2 (fun zr r => map (fun a => a * r) zr) zm
          (Np.map2 Qcminus ym (Np.matvec xm beta))).
Proof.
  intros Hz Hx Hn Hy Hk. unfold iv_moment_numpy, Arr.matmul_mv.
  rewrite Hx, Hk, Nat.eqb_refl. simpl res_bind.
  assert (Hmv : map (fun r => @Arr.dot Qc Num_Qc r beta) xm
                = Np.matvec xm beta)
    by (apply map_ext; intros r; apply Arr_dot_Qc).
  rewrite Hmv.
  rewrite broadcast_same_length
    by (unfold Np.matvec; rewrite length_map; exact Hy).
  simpl res_bind.
  rewrite (@broadcast2_column Qc Num_Qc); [reflexivity | exact Hz |].
  rewrite NpFacts.map2_length. unfold Np.matvec. rewrite length_map.
  unfold Np.nrows in *. rewrite Hy, Nat.min_id. exact Hn.
Qed.

Lemma vadd_interchange (a b c d : vector) :
  Np.vadd (Np.vadd a b) (Np.vadd c d) = Np.vadd (Np.vadd a c) (Np.vadd b d).
Proof.
  unfold Np.vadd. revert b c d.
  induction a as [|a0 a IH]; intros [|b0 b] [|c0 c] [|d0 d]; simpl; auto.
  f_equal; [ring | apply IH].
Qed.

Lemma dot_vadd_r (u v w : vector) :
  length v = length w ->
  Np.dot u (Np.vadd v w) = Np.dot u v + Np.dot u w.
Proof.
  intros H. rewrite NpFacts.dot_comm, NpFacts.dot_vadd_l by exact H.
  rewrite (NpFacts.dot_comm v), (NpFacts.dot_comm w). reflexivity.
Qed.

Lemma mzeros_shape L k :
  length (Np.mzeros L k) = L /\
  Forall (fun r => length r = k) (Np.mzeros L k).
Proof.
  unfold Np.mzeros. split; [apply repeat_length|].
  apply Forall_forall. intros r Hr. apply repeat_spec in Hr. subst.
  apply NpFacts.zeros_length.
Qed.

Lemma madd_outer_rows k (zr xr : vector) (R : matrix) :
  length xr = k ->
  Forall (fun r => length r = k) R ->
  Forall (fun r => length r = k)
    (Np.madd (map (fun a => Np.vscale (- a) xr) zr) R).
Proof.
  intros Hxr. revert R. unfold Np.madd.
  induction zr as [|a zr IHz]; intros [|r R] Hrows; simpl; auto.
  inversion Hrows; subst. constructor; [|apply IHz; assumption].
  rewrite NpFacts.vadd_length; rewrite NpFacts.vscale_length; auto.
Qed.

Lemma madd_outer_length (zr xr : vector) (R : matrix) :
  length R = length zr ->
  length (Np.madd (map (fun a => Np.vscale (- a) xr) zr) R) = length zr.
Proof.
  intros H. unfold Np.madd. rewrite NpFacts.map2_length, length_map.
  unfold vector in *. rewrite H. apply Nat.min_id.
Qed.

Lemma outer_sum_rows L k (zm xm : matrix) :
  Forall (fun r => length r = k) xm ->
  Forall (fun r => length r = L) zm ->
  length (fold_right Np.madd (Np.mzeros L k)
            (Np.map2 (fun zr xr => map (fun a => Np.vscale (- a) xr) zr)
               zm xm)) = L /\
  Forall (fun r => length r = k)
    (fold_right Np.madd (Np.mzeros L k)
       (Np.map2 (fun zr xr => map (fun a => Np.vscale (- a) xr) zr) zm xm)).
Proof.
  intros Hx Hz; revert xm Hx.
  induction Hz as [|zr zm Hzr Hz IH]; intros xm Hx; simpl.
  - apply mzeros_shape.
  - destruct xm as [|xr xm]; simpl; [apply mzeros_shape|].
    inversion Hx as [|? ? Hxr Hx']; subst.
    destruct (IH xm Hx') as (HL & Hrows). split.
    + apply madd_outer_length. exact HL.
    + apply madd_outer_rows; [reflexivity | exact Hrows].
Qed.

Lemma matvec_madd k (A B : matrix) h :
  Forall (fun r => length r = k) A -> Forall (fun r => length r = k) B ->
  Np.matvec (Np.madd A B) h = Np.vadd (Np.matvec A h) (Np.matvec B h).
Proof.
  intros HA; revert B. induction HA as [|ra A Hra HA IH]; intros [|rb B] HB;
    simpl; auto.
  inversion HB; subst. unfold Np.vadd in *. simpl. f_equal.
  - apply NpFacts.dot_vadd_l. congruence.
  - apply IH. assumption.
Qed.

(** The observation-summed linear IV moments are affine in [beta], with
    linear part the sum of the outer products [- z_i x_i^T]. *)
Lemma summed_rows_increment L k (zm : matrix) (ym : vector) (xm : matrix)
    (beta h : vector) :
  Forall (fun r => length r = L) zm ->
  Forall (fun r => length r = k) xm ->
  length zm = length xm -> length ym = length xm ->
  length beta = length h ->
  Np.colsum L
    (Np.map2 (fun zr r => map (fun a => a * r) zr) zm
       (Np.map2 Qcminus ym (Np.matvec xm (Np.vadd beta h))))
  = Np.vadd
      (Np.colsum L
         (Np.map2 (fun zr r => map (fun a => a * r) zr) zm
            (Np.map2 Qcminus ym (Np.matvec xm beta))))
      (Np.matvec
         (fold_right Np.madd (Np.mzeros L k)
            (Np.map2 (fun zr xr => map (fun a => Np.vscale (- a) xr) zr)
               zm xm)) h).
Proof.
  intros Hz; revert ym xm.
  induction Hz as [|zr zm Hzr Hz IH]; intros [|y0 ym] [|xr xm] Hx Hlz Hly Hbh;
    simpl in *; try discriminate.
  - unfold Np.matvec, Np.mzeros. rewrite map_repeat.
    rewrite NpFacts.dot_zeros_l. unfold Np.vadd, Np.zeros.
    clear. induction L; simpl; [reflexivity|]. f_equal; try ring; assumption.
  - inversion Hx as [|? ? Hxr Hx']; subst.
    rewrite (IH ym xm Hx') by lia.
    destruct (outer_sum_rows (length zr) (length xr) zm xm Hx' Hz)
      as (HL & Hrows).
    rewrite (matvec_madd (length xr)); [| |exact Hrows].
    + rewrite <- vadd_interchange. f_equal.
      rewrite dot_vadd_r by exact Hbh.
      unfold Np.matvec, Np.vadd. rewrite map_map.
      clear. induction zr as [|a zr IHz]; simpl; [reflexivity|].
      f_equal; [|exact IHz].
      rewrite NpFacts.dot_vscale_l. ring.
    + apply Forall_forall. intros r Hr. apply in_map_iff in Hr.
      destruct Hr as (a & <- & _). apply NpFacts.vscale_length.
Qed.

Lemma ncols_moment_rows (zm : matrix) (rs : vector) :
  Np.is_ndarray zm = true -> length zm = length rs ->
  Np.ncols (Np.map2 (fun zr r => map (fun a => a * r) zr) zm rs)
  = Np.ncols zm.
Proof.
  intros Hz Hlen. apply NpFacts.is_ndarray_rows in Hz.
  destruct Hz as (_ & Hn & _). unfold Np.nrows, Np.ncols in *.
  destruct zm as [|zr zm]; simpl in *; [lia|].
  destruct rs as [|r rs]; simpl in *; [discriminate|].
  apply length_map.
Qed.

(** On aligned data the observation-summed linear IV moments change by
    exactly [((-z.T) @ x) h] when [beta] changes by [h]. *)
Lemma summed_iv_moment_increment (zm : matrix) (ym : vector) (xm : matrix)
    (beta h : vector) :
  Np.is_ndarray zm = true -> Np.is_ndarray xm = true ->
  Np.nrows zm = Np.nrows xm -> length ym = Np.nrows xm ->
  length beta = Np.ncols xm -> length h = Np.ncols xm ->
  exists g0 g1,
    summed_moments iv_moment_numpy zm ym xm beta = Ok g0 /\
    summed_moments iv_moment_numpy zm ym xm (Np.vadd beta h) = Ok g1 /\
    g1 = Np.vadd g0
           (Np.matvec (Np.matmul (Np.mneg (Np.transpose zm)) xm) h).
Proof.
  intros Hz Hx Hn Hy Hb Hh.
  assert (Hbh : length (Np.vadd beta h) = Np.ncols xm)
    by (rewrite NpFacts.vadd_length; congruence).
  unfold summed_moments.
  rewrite !iv_moment_numpy_aligned by (auto; congruence).
  simpl res_bind.
  assert (Hrs : forall b : vector,
             length zm = length (Np.map2 Qcminus ym (Np.matvec xm b))).
  { intros b. rewrite NpFacts.map2_length. unfold Np.matvec.
    rewrite length_map. unfold Np.nrows in *. rewrite Hy, Nat.min_id.
    exact Hn. }
  rewrite !ncols_moment_rows by auto.
  do 2 eexists. split; [reflexivity|]. split; [reflexivity|].
  pose proof (NpFacts.is_ndarray_rows _ Hz) as (Hzr & _ & _).
  pose proof (NpFacts.is_ndarray_rows _ Hx) as (Hxr & _ & _).
  unfold Np.matmul, Np.transpose.
  rewrite (neg_gram_as_sum (Np.ncols zm) (Np.ncols xm)) by exact Hn.
  apply summed_rows_increment; auto. congruence.
Qed.

(** C5.  For the linear IV moment condition [z * (y - x beta)] on aligned
    data, the analytic Jacobian [(-z.T) @ x] of the scipy branch is exactly
    what the torch branch returns, the forward-mode Jacobian of the moment
    condition summed over observations; and it is the Jacobian of the
    observation-summed moments, which change by exactly [Gamma h] when
    [beta] changes by [h]. *)
Theorem analytic_jacobian_matches_autodiff (zm : matrix) (ym : vector)
    (xm : matrix) (th : vector) (a b : t) :
  Np.is_ndarray zm = true -> Np.is_ndarray xm = true ->
  Np.nrows zm = Np.nrows xm -> length ym = Np.nrows xm ->
  Np.ncols xm = length th ->
  opt a = "scipy" -> z a = Some zm -> x a = Some xm ->
  opt b = "torch" -> moment_cond b = iv_moment_pytorch ->
  z b = Some zm -> y b = Some ym -> x b = Some xm -> theta b = Some th ->
  fst (jacobian_moment_cond a)
  = Ok (Np.matmul (Np.mneg (Np.transpose zm)) xm) /\
  fst (jacobian_moment_cond b)
  = Ok (Np.matmul (Np.mneg (Np.transpose zm)) xm) /\
  forall beta h,
    length beta = Np.ncols xm -> length h = Np.ncols xm ->
    exists g0 g1,
      summed_moments iv_moment_numpy zm ym xm beta = Ok g0 /\
      summed_moments iv_moment_numpy zm ym xm (Np.vadd beta h) = Ok g1 /\
      g1 = Np.vadd g0
             (Np.matvec (Np.matmul (Np.mneg (Np.transpose zm)) xm) h).
Proof.
  intros Hz Hx Hn Hy Hk Hoa Hza Hxa Hob Hmc Hzb Hyb Hxb Hthb.
  destruct (sum_jacfwd_iv_moment zm ym xm th Hz Hx Hn Hy Hk)
    as (J & HJ & Hsum).
  destruct (neg_transpose_is_ndarray zm Hz) as (HT & HTc).
  split; [|split].
  3: { intros beta h Hb Hh.
       apply summed_iv_moment_increment; assumption. }
  - unfold jacobian_moment_cond, bind, gets, getattr, lift, assign.
    rewrite Hoa. simpl. rewrite Hza, Hxa. unfold Np.matmul_mm.
    rewrite HT, Hx, HTc, Hn, Nat.eqb_refl. reflexivity.
  - unfold jacobian_moment_cond, bind, gets, getattr, lift, assign.
    rewrite Hob. simpl. rewrite Hmc, Hzb, Hyb, Hxb, Hthb, HJ. simpl.
    rewrite Hsum. reflexivity.
Qed.

Lemma analytic_jacobian_matches_autodiff_witness :
  fst (jacobian_moment_cond (staged est_identity)) = Ok [[qz (-5)]] /\
  fst (jacobian_moment_cond (set_theta [qz 2] (staged est_torch)))
  = Ok [[qz (-5)]].
Proof.
  destruct (analytic_jacobian_matches_autodiff sample_z sample_y sample_x
              [qz 2] (staged est_identity)
              (set_theta [qz 2] (staged est_torch)))
    as (Ha & Hb & _); try reflexivity.
  split; [rewrite Ha | rewrite Hb]; vm_compute; reflexivity.
Defined.

(** ** Further properties of the code *)

(** *** Arrays of zeros are not invertible *)

Lemma zero_row (r : vector) :
  Forall (fun q => q = 0) r -> r = Np.zeros (length r).
Proof.
  induction 1 as [|a r Ha Hr IH]; simpl; [reflexivity|].
  subst a. unfold Np.zeros in *. simpl. f_equal. exact IH.
Qed.

Lemma vscale_zeros a c : Np.vscale a (Np.zeros c) = Np.zeros c.
Proof.
  unfold Np.vscale, Np.zeros. rewrite map_repeat. f_equal; ring.
Qed.

Lemma vadd_zeros c : Np.vadd (Np.zeros c) (Np.zeros c) = Np.zeros c.
Proof.
  unfold Np.vadd, Np.zeros. induction c as [|c IH]; simpl; [reflexivity|].
  f_equal; try ring; exact IH.
Qed.

Lemma vadd_zeros_l c (v : vector) :
  length v = c -> Np.vadd (Np.zeros c) v = v.
Proof.
  intros <-. unfold Np.vadd, Np.zeros.
  induction v as [|a v IH]; simpl; [reflexivity|].
  f_equal; try ring; exact IH.
Qed.

(** [u @ M] is zero when [M] is. *)
Lemma vecmat_zero_matrix c (u : vector) (Mm : matrix) :
  all_zero Mm -> Forall (fun r => length r = c) Mm ->
  Np.vecmat c u Mm = Np.zeros c.
Proof.
  intros Hz; revert u. induction Hz as [|r Mm Hr Hz IH]; intros u Hrows;
    destruct u as [|a u]; simpl; try reflexivity.
  apply Forall_cons_iff in Hrows. destruct Hrows as [Hlen Hrows'].
  assert (Er : r = Np.zeros c) by (rewrite <- Hlen; apply zero_row, Hr).
  rewrite Er, vscale_zeros, IH by assumption.
  apply vadd_zeros.
Qed.

(** [u @ M] is zero when [u] is. *)
Lemma vecmat_zero_vector c (u : vector) (Mm : matrix) :
  Forall (fun q => q = 0) u -> Forall (fun r => length r = c) Mm ->
  Np.vecmat c u Mm = Np.zeros c.
Proof.
  intros Hu; revert Mm. induction Hu as [|a u Ha Hu IH]; intros Mm Hrows;
    destruct Mm as [|r Mm]; simpl; try reflexivity.
  apply Forall_cons_iff in Hrows. destruct Hrows as [Hlen Hrows'].
  rewrite IH by assumption. subst a.
  assert (E : Np.vscale 0 r = Np.zeros (length r)).
  { unfold Np.vscale, Np.zeros. clear.
    induction r as [|b r IH]; simpl; [reflexivity|].
    f_equal; try ring; exact IH. }
  rewrite E, Hlen. apply vadd_zeros.
Qed.

Lemma zeros_all_zero c : Forall (fun q => q = 0) (Np.zeros c).
Proof.
  apply Forall_forall. intros q Hq. apply repeat_spec in Hq. exact Hq.
Qed.

Lemma matmul_zero_r (A B : matrix) :
  all_zero B -> Forall (fun r => length r = Np.ncols B) B ->
  all_zero (Np.matmul A B).
Proof.
  intros HB Hrows. unfold all_zero, Np.matmul.
  apply Forall_forall. intros r Hr. apply in_map_iff in Hr.
  destruct Hr as (u & <- & _).
  rewrite vecmat_zero_matrix by assumption. apply zeros_all_zero.
Qed.

Lemma matmul_zero_l (A B : matrix) :
  all_zero A -> Forall (fun r => length r = Np.ncols B) B ->
  all_zero (Np.matmul A B).
Proof.
  intros HA Hrows. unfold all_zero, Np.matmul in *.
  apply Forall_forall. intros r Hr. apply in_map_iff in Hr.
  destruct Hr as (u & <- & Hu).
  rewrite Forall_forall in HA.
  rewrite vecmat_zero_vector; [apply zeros_all_zero | auto | assumption].
Qed.

Lemma mscale_zero c (A : matrix) : all_zero A -> all_zero (Np.mscale c A).
Proof.
  unfold all_zero, Np.mscale. intros HA.
  apply Forall_forall. intros r Hr. apply in_map_iff in Hr.
  destruct Hr as (u & <- & Hu). rewrite Forall_forall in HA.
  specialize (HA u Hu). unfold Np.vscale.
  apply Forall_forall. intros q Hq. apply in_map_iff in Hq.
  destruct Hq as (p & <- & Hp). rewrite Forall_forall in HA.
  rewrite (HA p Hp). ring.
Qed.

Lemma Qc_one_neq_zero : (1 : Qc) <> 0.
Proof. intros H. apply (f_equal this) in H. discriminate H. Qed.

(** No array of zeros has an inverse. *)
Lemma zero_matrix_not_invertible inv (B V : matrix) :
  inverse_contract inv ->
  all_zero B -> (0 < Np.nrows B)%nat ->
  inv B = Ok V -> False.
Proof.
  intros Hinv HB Hn HV.
  destruct (Hinv _ _ HV) as (HVa & _ & _ & Hmul).
  apply NpFacts.is_ndarray_rows in HVa. destruct HVa as (Hrows & _ & _).
  pose proof (matmul_zero_l B V HB Hrows) as Hz.
  rewrite Hmul in Hz. unfold all_zero in Hz.
  destruct (Np.nrows B) as [|m]; [lia|].
  unfold Np.eye, Np.eye_row in Hz. simpl in Hz.
  inversion Hz as [|? ? Hrow _]; subst.
  inversion Hrow as [|? ? H1 _]; subst.
  exact (Qc_one_neq_zero H1).
Qed.


(** *** More on the objective *)

(** X1.  An objective evaluation assigns [W] and nothing else: the
    configuration, the staged data and every result of an earlier fit are
    as before, whether the evaluation returns or raises. *)
Theorem objective_assigns_only_W inv beta est r est' :
  gmm_objective inv beta est = (r, est') ->
  config est' = config est /\
  z est' = z est /\ y est' = y est /\ x est' = x est /\
  n est' = n est /\ k est' = k est /\ theta est' = theta est /\
  Gamma est' = Gamma est /\ vtheta est' = vtheta est /\
  std_errors est' = std_errors est /\ jac_est est' = jac_est est.
Proof.
  intros H. apply gmm_objective_frame in H.
  unfold same_but_W, set_W, config in *.
  injection H as ? ? ? ? ? ? ? ? ? ? ? ? ?.
  repeat split; congruence.
Qed.

(** X2.  An objective evaluation does not depend on earlier ones: evaluated
    after another evaluation that returned a value, it returns the same
    value and leaves the same instance as when evaluated directly. *)
Theorem objective_forgets_history inv beta1 beta2 est v1 est1 v2 est2 :
  gmm_objective inv beta1 est = (Ok (Val v1), est1) ->
  gmm_objective inv beta2 est = (Ok (Val v2), est2) ->
  gmm_objective inv beta2 est1 = (Ok (Val v2), est2).
Proof.
  intros H1 H2.
  destruct (gmm_objective_val _ _ _ _ _ H1)
    as (_ & _ & _ & _ & _ & W1 & _ & _ & _ & _ & _ & -> & _ & _).
  assert (Hsame : same_inputs est (set_W (Val W1) est)) by reflexivity.
  destruct (gmm_objective_same_inputs _ _ _ _ _ _ Hsame H2)
    as (W2 & -> & Hb).
  exact Hb.
Qed.

(** X5.  With "optimal" weighting, the objective returns no value at a
    parameter where all moments are zero: [(1/n) * moments.T @ moments] is
    then an array of zeros, which has no inverse. *)
Theorem optimal_objective_fails_where_moments_vanish inv beta est
    zm ym xm Mm :
  inverse_contract inv ->
  weighting_matrix est = "optimal"%string ->
  z est = Some zm -> y est = Some ym -> x est = Some xm ->
  moment_cond est Qc Num_Qc zm ym xm beta = Ok Mm ->
  all_zero Mm ->
  forall v est', gmm_objective inv beta est <> (Ok (Val v), est').
Proof.
  intros Hinv Hopt Hz Hy Hx HM Hzero v est' H.
  destruct (gmm_objective_val _ _ _ _ _ H)
    as (zm' & ym' & xm' & Mm' & mavg & Wm & Hz' & Hy' & Hx' & HM' & Hm & _
        & Hw & _).
  assert (Mm' = Mm) by congruence. subst Mm'.
  unfold weight_spec in Hw. rewrite Hopt in Hw. simpl in Hw.
  destruct Hw as (n_ & P & _ & _ & HP & HW).
  apply matmul_mm_ok in HP. destruct HP as (_ & HMa & _ & ->).
  pose proof (NpFacts.is_ndarray_rows _ HMa) as (Hrows & _ & Hc).
  eapply (zero_matrix_not_invertible inv); [exact Hinv | | | exact HW].
  - apply mscale_zero, matmul_zero_r; assumption.
  - unfold Np.nrows, Np.mscale, Np.matmul. rewrite !length_map.
    change (0 < Np.nrows (Np.transpose Mm))%nat.
    rewrite ndarray_nrows_transpose; assumption.
Qed.

Lemma map2_all_zero_rows (zm : matrix) (rs : vector) :
  Forall (fun q => q = 0) rs ->
  all_zero (Np.map2 (fun zr r => map (fun a => a * r) zr) zm rs).
Proof.
  intros Hr; revert zm. induction Hr as [|r rs Hr0 Hr IH]; intros [|zr zm];
    simpl; try constructor.
  - subst r. apply Forall_forall. intros q Hq. apply in_map_iff in Hq.
    destruct Hq as (a & <- & _). ring.
  - apply IH.
Qed.

Lemma residuals_vanish (u : vector) :
  Forall (fun q => q = 0) (Np.map2 Qcminus u u).
Proof.
  induction u as [|a u IH]; simpl; constructor; [ring | exact IH].
Qed.

(** X6.  On aligned data whose responses are exactly [x @ beta], the linear
    IV moment condition returns an array of zeros at [beta]. *)
Theorem iv_moments_vanish_at_exact_fit (zm : matrix) (xm : matrix)
    (beta : vector) :
  Np.is_ndarray zm = true -> Np.is_ndarray xm = true ->
  Np.nrows zm = Np.nrows xm -> Np.ncols xm = length beta ->
  exists Mm,
    iv_moment_numpy Qc Num_Qc zm (Np.matvec xm beta) xm beta = Ok Mm /\
    all_zero Mm.
Proof.
  intros Hz Hx Hn Hk. eexists. split.
  - apply iv_moment_numpy_aligned; auto.
    unfold Np.matvec. rewrite length_map. reflexivity.
  - apply map2_all_zero_rows, residuals_vanish.
Qed.

Lemma nth_map2 {A B C : Type} (f : A -> B -> C) u v i da db dc :
  (i < length u)%nat -> (i < length v)%nat ->
  nth i (Np.map2 f u v) dc = f (nth i u da) (nth i v db).
Proof.
  revert v i; induction u as [|a u IH]; intros [|b v] [|i] Hu Hv;
    simpl in *; try lia; auto.
  apply IH; lia.
Qed.

(** X7.  On aligned data the linear IV moment condition returns an array of
    the shape of [z] whose entry [(i, l)] is [z[i, l] * (y[i] - x[i] @ beta)]. *)
Theorem iv_moments_aligned (zm : matrix) (ym : vector) (xm : matrix)
    (beta : vector) :
  Np.is_ndarray zm = true -> Np.is_ndarray xm = true ->
  Np.nrows zm = Np.nrows xm -> length ym = Np.nrows xm ->
  Np.ncols xm = length beta ->
  exists Mm,
    iv_moment_numpy Qc Num_Qc zm ym xm beta = Ok Mm /\
    Np.is_ndarray Mm = true /\
    Np.nrows Mm = Np.nrows zm /\ Np.ncols Mm = Np.ncols zm /\
    forall i l, (i < Np.nrows zm)%nat ->
      nth l (nth i Mm []) 0
      = nth l (nth i zm []) 0 * (nth i ym 0 - Np.dot (nth i xm []) beta).
Proof.
  intros Hz Hx Hn Hy Hk. eexists. split.
  - apply iv_moment_numpy_aligned; assumption.
  - set (rs := Np.map2 Qcminus ym (Np.matvec xm beta)).
    assert (Hrs : length rs = Np.nrows zm).
    { unfold rs. rewrite NpFacts.map2_length. unfold Np.matvec.
      rewrite length_map. unfold Np.nrows in *. rewrite Hy, Nat.min_id.
      symmetry. exact Hn. }
    pose proof (NpFacts.is_ndarray_rows _ Hz) as (Hrows & Hnz & Hcz).
    assert (Hlen : length (Np.map2 (fun zr r => map (fun a => a * r) zr)
                             zm rs) = Np.nrows zm).
    { rewrite NpFacts.map2_length. unfold Np.nrows in *.
      unfold vector in *. rewrite Hrs. apply Nat.min_id. }
    assert (Hentry : forall i, (i < Np.nrows zm)%nat ->
              nth i (Np.map2 (fun zr r => map (fun a => a * r) zr) zm rs) []
              = map (fun a => a * nth i rs 0) (nth i zm [])).
    { intros i Hi.
      rewrite (nth_map2 (fun zr r => map (fun a => a * r) zr) zm rs i
                 [] 0 []);
        [reflexivity | exact Hi | rewrite Hrs; exact Hi]. }
    assert (Hshape : Forall (fun r => length r = Np.ncols zm)
                       (Np.map2 (fun zr r => map (fun a => a * r) zr) zm rs)).
    { apply Forall_forall. intros r Hr.
      destruct (In_nth _ _ [] Hr) as (i & Hi & <-).
      rewrite Hlen in Hi. rewrite (Hentry i Hi), length_map.
      rewrite Forall_forall in Hrows. apply Hrows. apply nth_In. exact Hi. }
    destruct (is_ndarray_intro _ (Np.ncols zm)
                (eq_ind_r (fun m => (0 < m)%nat) Hnz Hlen) Hcz Hshape)
      as (Harr & Hcols).
    repeat split; auto.
    intros i l Hi. rewrite (Hentry i Hi).
    assert (Hri : nth i rs 0 = nth i ym 0 - Np.dot (nth i xm []) beta).
    { unfold rs.
      rewrite (nth_map2 Qcminus ym (Np.matvec xm beta) i 0 0 0).
      - f_equal. unfold Np.matvec.
        rewrite (nth_indep _ 0 (Np.dot [] beta)).
        + apply (map_nth (fun r => Np.dot r beta)).
        + rewrite length_map. apply (Nat.lt_le_trans _ _ _ Hi).
          apply Nat.eq_le_incl. exact Hn.
      - apply (Nat.lt_le_trans _ _ _ Hi). apply Nat.eq_le_incl.
        rewrite Hy. exact Hn.
      - unfold Np.matvec. rewrite length_map.
        apply (Nat.lt_le_trans _ _ _ Hi). apply Nat.eq_le_incl. exact Hn. }
    rewrite Hri.
    destruct (Nat.lt_ge_cases l (length (nth i zm []))) as [Hl | Hl].
    + rewrite (nth_indep _ 0 (0 * (nth i ym 0 - Np.dot (nth i xm []) beta)))
        by (rewrite length_map; exact Hl).
      apply (map_nth (fun a => a * (nth i ym 0 - Np.dot (nth i xm []) beta))).
    + rewrite (nth_overflow (nth i zm []) 0 Hl).
      rewrite nth_overflow by (rewrite length_map; exact Hl). ring.
Qed.

(** X9.  An exception raised while minimizing propagates out of [fit]
    (the [try] of [fit] only covers the covariance computation): the data
    have been staged, but [theta], [std_errors], [Gamma], [vtheta] and
    [jac_est] are what they were before the call. *)
Theorem minimizer_failure_propagates inv rand sv1 sv2 z_ y_ x_ vb fm
    est e stm :
  opt est = "scipy"%string \/ opt est = "torch"%string ->
  minimize (solver_of sv1 sv2 (opt est)) (gmm_objective inv)
           (rand (Np.ncols x_)) (method_of fm (opt est)) vb
           (stage z_ y_ x_ est) = (Raise e, stm) ->
  fit inv rand sv1 sv2 z_ y_ x_ vb fm est = (Raise e, stm) /\
  theta stm = theta est /\ std_errors stm = std_errors est /\
  Gamma stm = Gamma est /\ vtheta stm = vtheta est /\
  jac_est stm = jac_est est /\
  z stm = Some z_ /\ y stm = Some y_ /\ x stm = Some x_.
Proof.
  intros Ho Hmin.
  pose proof (minimize_frame _ _ _ _ _ _ _ _ Hmin) as Hfr.
  unfold same_but_W, set_W, stage in Hfr. simpl in Hfr.
  injection Hfr as ? ? ? ? ? ? ? ? ? ? ? ? ?.
  split; [|repeat split; solve [congruence | symmetry; assumption]].
  unfold fit, fit_solve, solver_of, method_of, stage in *.
  destruct Ho as [Ho | Ho]; rewrite Ho in *; simpl in Hmin;
    unfold bind, gets, assign, getattr; simpl; rewrite Ho; simpl;
    unfold bind; rewrite Hmin; reflexivity.
Qed.

Lemma fit_assigns_results inv rand sv1 sv2 z_ y_ x_ vb fm est est' :
  fit inv rand sv1 sv2 z_ y_ x_ vb fm est = (Ok tt, est') ->
  (exists th, theta est' = Some th) /\
  (exists se, std_errors est' = Some se) /\
  (exists Wm, W est' = Some (Val Wm)).
Proof.
  intros Hfit.
  destruct (fit_ok _ _ _ _ _ _ _ _ _ _ _ Hfit) as (st1 & Hsolve & Hcov).
  destruct (fit_solve_ok _ _ _ _ _ _ _ _ _ _ _ Hsolve)
    as (_ & r & stm & Hmin & ->).
  destruct (minimize_last _ _ _ _ _ _ _ _ Hmin) as (v & Hlast).
  destruct (gmm_objective_val _ _ _ _ _ Hlast)
    as (_ & _ & _ & _ & _ & Wm & _ & _ & _ & _ & _ & HW & _ & _).
  apply (f_equal W) in HW. simpl in HW.
  destruct Hcov as [Hcov | (e & st2 & Hcov & ->)].
  - pose proof (fit_covariance_frame _ _ _ _ Hcov) as Hfr.
    apply same_but_covariance_fields in Hfr. destruct Hfr as (_ & HW' & Hth).
    simpl in HW', Hth.
    destruct (fit_covariance_ok _ _ _ Hcov)
      as (G & st2 & Wm' & A & B & V & n_ & _ & _ & _ & _ & _ & _ & E).
    repeat split.
    + exists r. congruence.
    + rewrite E. simpl. eauto.
    + exists Wm. congruence.
  - pose proof (fit_covariance_frame _ _ _ _ Hcov) as Hfr.
    apply same_but_covariance_fields in Hfr. destruct Hfr as (_ & HW' & Hth).
    simpl in HW', Hth. simpl.
    repeat split.
    + exists r. congruence.
    + eauto.
    + exists Wm. congruence.
Qed.

(** X10.  After any call of [fit] that completes, [summary] returns:
    [theta] and [std_errors] have both been assigned, and [summary] hands
    them back without changing the instance. *)
Theorem summary_after_fit inv rand sv1 sv2 z_ y_ x_ vb fm est est' :
  fit inv rand sv1 sv2 z_ y_ x_ vb fm est = (Ok tt, est') ->
  exists th se,
    summary est' = (Ok (th, se), est') /\
    theta est' = Some th /\ std_errors est' = Some se.
Proof.
  intros Hfit.
  destruct (fit_assigns_results _ _ _ _ _ _ _ _ _ _ _ Hfit)
    as ((th & Hth) & (se & Hse) & _).
  exists th, se. repeat split; auto.
  unfold summary, bind, getattr, ret. rewrite Hth, Hse. reflexivity.
Qed.


Lemma same_config_refl s : same_config s s.
Proof. reflexivity. Qed.

Lemma same_config_trans a b c :
  same_config a b -> same_config b c -> same_config a c.
Proof. unfold same_config. congruence. Qed.

Lemma gmm_objective_config inv beta :
  preserves same_config (gmm_objective inv beta).
Proof.
  intros s r s' H. apply gmm_objective_frame in H.
  apply same_but_W_fields in H. destruct H as (H & Ho).
  apply same_inputs_fields in H. unfold same_config, config.
  destruct H as (-> & -> & _). rewrite Ho. reflexivity.
Qed.

Lemma fit_covariance_config inv : preserves same_config (fit_covariance inv).
Proof.
  intros s r s' H. apply fit_covariance_frame in H.
  apply (f_equal config) in H. exact H.
Qed.

(** X11.  [fit] never changes the configuration: [moment_cond],
    [weighting_matrix] and [opt] are the same after the call, however it
    ends. *)
Theorem fit_keeps_configuration inv rand sv1 sv2 z_ y_ x_ vb fm est r est' :
  fit inv rand sv1 sv2 z_ y_ x_ vb fm est = (r, est') ->
  moment_cond est' = moment_cond est /\
  weighting_matrix est' = weighting_matrix est /\
  opt est' = opt est.
Proof.
  intros H.
  assert (Hp : preserves same_config
                 (fit inv rand sv1 sv2 z_ y_ x_ vb fm)).
  { pose proof same_config_refl. pose proof same_config_trans.
    pose proof gmm_objective_config.
    unfold fit, fit_solve. cbv zeta.
    apply preserves_bind; auto.
    - repeat first
        [ apply preserves_minimize; [assumption | assumption | auto]
        | preserves_step ].
    - intros _. apply preserves_try_except; auto.
      + apply fit_covariance_config.
      + apply preserves_assign; auto. }
  apply Hp in H. unfold same_config, config in H.
  injection H as ? ? ?. auto.
Qed.

(** The instance after the minimization stage of a completed fit: the last
    objective evaluation, and everything the covariance step reads. *)
Lemma fit_solve_state inv rand sv1 sv2 z_ y_ x_ vb fm est st1 :
  fit_solve inv rand sv1 sv2 z_ y_ x_ vb fm est = (Ok tt, st1) ->
  opt st1 = opt est /\ z st1 = Some z_ /\ x st1 = Some x_ /\
  exists beta sb v stl,
    gmm_objective inv beta sb = (Ok (Val v), stl) /\ W st1 = W stl.
Proof.
  intros Hsolve.
  destruct (fit_solve_ok _ _ _ _ _ _ _ _ _ _ _ Hsolve)
    as (_ & r & stm & Hmin & ->).
  pose proof (minimize_frame _ _ _ _ _ _ _ _ Hmin) as Hfr.
  apply same_but_W_fields in Hfr. destruct Hfr as (Hfr & Ho).
  apply same_inputs_fields in Hfr.
  destruct Hfr as (_ & _ & _ & Hz & _ & Hx & _).
  destruct (minimize_last _ _ _ _ _ _ _ _ Hmin) as (v & Hlast).
  simpl in Ho, Hz, Hx.
  split; [symmetry; exact Ho|].
  split; [symmetry; exact Hz|].
  split; [symmetry; exact Hx|].
  do 4 eexists. split; [exact Hlast | reflexivity].
Qed.

Lemma jacobian_scipy s (G : matrix) zm xm :
  opt s = "scipy"%string -> z s = Some zm -> x s = Some xm ->
  fst (jacobian_moment_cond s) = Ok G ->
  Np.matmul_mm (Np.mneg (Np.transpose zm)) xm = Ok G.
Proof.
  intros Ho Hz Hx. unfold jacobian_moment_cond.
  unfold bind, gets, getattr, lift, assign. rewrite Ho. simpl.
  rewrite Hz, Hx. simpl.
  destruct (Np.matmul_mm (Np.mneg (Np.transpose zm)) xm) as [g|e]; simpl.
  - intros H. injection H as <-. reflexivity.
  - discriminate.
Qed.

Lemma ncols_matmul (A B : matrix) :
  Np.is_ndarray A = true -> Np.is_ndarray B = true ->
  Np.ncols (Np.matmul A B) = Np.ncols B.
Proof.
  intros HA HB.
  apply NpFacts.is_ndarray_rows in HA, HB.
  destruct HA as (_ & HA & _). destruct HB as (HB & _).
  unfold Np.matmul, Np.ncols at 1. destruct A as [|r A].
  - unfold Np.nrows in HA. simpl in HA. lia.
  - simpl. apply NpFacts.vecmat_length. exact HB.
Qed.

(** X13.  On the scipy backend, standard errors left by [fit] come one per
    column of [x]: [Gamma] has as many columns as [x], and [vtheta] is a
    square array of that order. *)
Theorem scipy_std_errors_per_regressor inv rand sv1 sv2 z_ y_ x_ vb fm
    est est' se :
  inverse_contract inv ->
  opt est = "scipy"%string ->
  fit inv rand sv1 sv2 z_ y_ x_ vb fm est = (Ok tt, est') ->
  std_errors est' = Some (Val se) ->
  length se = Np.ncols x_ /\
  exists G V, Gamma est' = Some G /\ vtheta est' = Some V /\
    Np.ncols G = Np.ncols x_ /\
    Np.nrows V = Np.ncols x_ /\ Np.ncols V = Np.ncols x_.
Proof.
  intros Hinv Ho Hfit Hse.
  destruct (fit_std_errors_inv _ _ _ _ _ _ _ _ _ _ _ _ Hfit Hse)
    as (st1 & G & Wm & A & B & V & Hsolve & HG & HGam & _ & HV & _ & HA & HB
        & HiV & -> & _).
  destruct (fit_solve_state _ _ _ _ _ _ _ _ _ _ _ Hsolve)
    as (Ho1 & Hz & Hx & _).
  rewrite Ho in Ho1.
  pose proof (jacobian_scipy _ _ _ _ Ho1 Hz Hx HG) as HGm.
  apply matmul_mm_ok in HGm. destruct HGm as (HN & Hxa & _ & ->).
  pose proof (ncols_matmul _ _ HN Hxa) as HGc.
  apply matmul_mm_ok in HA. destruct HA as (HTa & _ & _ & ->).
  apply matmul_mm_ok in HB. destruct HB as (_ & HGa & _ & ->).
  destruct (Hinv _ _ HiV) as (_ & HVr & HVc & _).
  assert (HBr : Np.nrows (Np.matmul
                  (Np.matmul (Np.transpose (Np.matmul
                     (Np.mneg (Np.transpose z_)) x_)) Wm)
                  (Np.matmul (Np.mneg (Np.transpose z_)) x_))
                = Np.ncols x_).
  { unfold Np.nrows, Np.matmul at 1 2. rewrite !length_map.
    change (Np.nrows (Np.transpose (Np.matmul
              (Np.mneg (Np.transpose z_)) x_)) = Np.ncols x_).
    rewrite ndarray_nrows_transpose by exact HGa. exact HGc. }
  rewrite HBr in HVr, HVc.
  split.
  - unfold Np.sqrt, Np.vscale, Np.diag.
    rewrite !length_map, length_seq, HVr, HVc. apply Nat.min_id.
  - eauto 10.
Qed.


(** X15.  On an instance that has only been constructed, [gmm_objective],
    [jacobian_moment_cond] and [summary] raise [AttributeError], whatever
    the configuration, and assign no attribute of the record. *)
Theorem unfitted_methods_raise inv mc wm o beta :
  let s := init mc wm o in
  gmm_objective inv beta s = (Raise AttributeError, s) /\
  jacobian_moment_cond s = (Raise AttributeError, s) /\
  summary s = (Raise AttributeError, s).
Proof.
  intros s. repeat split.
  - unfold jacobian_moment_cond, bind, gets, getattr, ret. simpl.
    destruct o as [o|]; simpl.
    + destruct (o =? "scipy")%string; [reflexivity|].
      destruct (o =? "torch")%string; reflexivity.
    + reflexivity.
Qed.

(** X16.  On the scipy backend the Jacobian is computed from [z] and [x]
    alone: two instances with the same [z] and [x] get the same result,
    whatever their moment conditions, responses and estimates. *)
Theorem scipy_jacobian_ignores_moment_cond a b :
  opt a = "scipy"%string -> opt b = "scipy"%string ->
  z a = z b -> x a = x b ->
  fst (jacobian_moment_cond a) = fst (jacobian_moment_cond b).
Proof.
  intros Ha Hb Hz Hx. unfold jacobian_moment_cond.
  unfold bind, gets, getattr, lift, assign. rewrite Ha, Hb. simpl.
  rewrite Hz. destruct (z b) as [zm|]; simpl; [|reflexivity].
  rewrite Hx. destruct (x b) as [xm|]; simpl; [|reflexivity].
  destruct (Np.matmul_mm (Np.mneg (Np.transpose zm)) xm); reflexivity.
Qed.

(** X17.  When [jacobian_moment_cond] returns, its result is the [jac_est]
    attribute.  On the scipy backend nothing else has been assigned (on the
    torch backend the code also assigns [self.jac], which the record does
    not keep); with an [opt] string other than "scipy" and "torch" it
    assigns nothing and returns the [jac_est] of an earlier call. *)
Theorem jacobian_returns_jac_est s (G : matrix) s' :
  jacobian_moment_cond s = (Ok G, s') ->
  jac_est s' = Some G /\
  (opt s = "scipy"%string -> s' = set_jac_est G s) /\
  (opt s <> "scipy"%string -> opt s <> "torch"%string -> s' = s).
Proof.
  intros H. unfold jacobian_moment_cond in H. minv.
  all: repeat match goal with
         | H : (_ =? _)%string = true |- _ => apply String.eqb_eq in H
         | H : (_ =? _)%string = false |- _ => apply String.eqb_neq in H
         end.
  all: try (simpl in *;
            match goal with H : Some _ = Some _ |- _ => injection H as <- end).
  - repeat split; try reflexivity. intros; contradiction.
  - repeat split; try reflexivity; intros; congruence.
  - match goal with H : jac_est _ = Some _ |- _ => rename H into Hj end.
    repeat split; try assumption. intros; contradiction.
Qed.

(** *** The further properties at the sample data *)

Lemma objective_assigns_only_W_witness :
  gmm_objective inv_upto2 [qz 2] fitted_once
  = (fst (gmm_objective inv_upto2 [qz 2] fitted_once),
     snd (gmm_objective inv_upto2 [qz 2] fitted_once)) /\
  theta (snd (gmm_objective inv_upto2 [qz 2] fitted_once))
  = theta fitted_once /\
  std_errors (snd (gmm_objective inv_upto2 [qz 2] fitted_once))
  = std_errors fitted_once.
Proof.
  split; [vm_compute; reflexivity|].
  destruct (objective_assigns_only_W inv_upto2 [qz 2] fitted_once
              (fst (gmm_objective inv_upto2 [qz 2] fitted_once))
              (snd (gmm_objective inv_upto2 [qz 2] fitted_once)))
    as (_ & _ & _ & _ & _ & _ & Hth & _ & _ & Hse & _);
    [vm_compute; reflexivity | split; assumption].
Defined.

Lemma objective_forgets_history_witness :
  gmm_objective inv_upto2 [qz 0] (staged est_optimal)
  = (Ok (Val (Q2Qc (49 # 74))),
     snd (gmm_objective inv_upto2 [qz 0] (staged est_optimal))) /\
  gmm_objective inv_upto2 [qz 2] (staged est_optimal)
  = (Ok (Val (Q2Qc (9 # 10))),
     set_W (Val [[Q2Qc (2 # 5)]]) (staged est_optimal)) /\
  gmm_objective inv_upto2 [qz 2]
    (snd (gmm_objective inv_upto2 [qz 0] (staged est_optimal)))
  = (Ok (Val (Q2Qc (9 # 10))),
     set_W (Val [[Q2Qc (2 # 5)]]) (staged est_optimal)).
Proof.
  split; [vm_compute; reflexivity|]. split; [vm_compute; reflexivity|].
  apply (objective_forgets_history inv_upto2 [qz 0] [qz 2]
           (staged est_optimal) (Q2Qc (49 # 74))
           (snd (gmm_objective inv_upto2 [qz 0] (staged est_optimal))));
    vm_compute; reflexivity.
Defined.

Lemma optimal_objective_fails_where_moments_vanish_witness :
  inverse_contract inv_upto2 /\
  weighting_matrix (staged_exact est_optimal) = "optimal"%string /\
  iv_moment_numpy Qc Num_Qc sample_z exact_y sample_x [qz 2]
  = Ok (Np.mzeros 2 1) /\
  all_zero (Np.mzeros 2 1) /\
  gmm_objective inv_upto2 [qz 2] (staged_exact est_optimal)
  <> (Ok (Val 0), set_W (Val (Np.eye 1)) (staged_exact est_optimal)).
Proof.
  assert (Hz : all_zero (Np.mzeros 2 1)).
  { repeat (apply Forall_cons || apply Forall_nil); exact eq_refl. }
  split; [exact inv_upto2_contract|]. split; [reflexivity|].
  split; [vm_compute; reflexivity|]. split; [exact Hz|].
  apply (optimal_objective_fails_where_moments_vanish inv_upto2 [qz 2]
           (staged_exact est_optimal) sample_z exact_y sample_x
           (Np.mzeros 2 1));
    [exact inv_upto2_contract | reflexivity | reflexivity | reflexivity
    | reflexivity | vm_compute; reflexivity | exact Hz].
Defined.

Lemma minimizer_failure_propagates_witness :
  opt est_optimal = "scipy"%string /\
  exact_fit est_optimal = (Raise LinAlgError, snd (exact_fit est_optimal)) /\
  theta (snd (exact_fit est_optimal)) = None /\
  std_errors (snd (exact_fit est_optimal)) = None /\
  x (snd (exact_fit est_optimal)) = Some sample_x.
Proof.
  split; [reflexivity|].
  destruct (minimizer_failure_propagates inv_upto2 rand_zeros solver_try2
              solver_try2 sample_z exact_y sample_x false None est_optimal
              LinAlgError (snd (exact_fit est_optimal)))
    as (Hfit & Hth & Hse & _ & _ & _ & _ & _ & Hx);
    [left; reflexivity | vm_compute; reflexivity |].
  split; [exact Hfit|]. split; [exact Hth|]. split; [exact Hse | exact Hx].
Defined.

Lemma summary_after_fit_witness :
  sample_fit est_optimal = (Ok tt, snd (sample_fit est_optimal)) /\
  exists th se,
    summary (snd (sample_fit est_optimal))
    = (Ok (th, se), snd (sample_fit est_optimal)).
Proof.
  split; [vm_compute; reflexivity|].
  destruct (summary_after_fit inv_upto2 rand_zeros solver_try2 solver_try2
              sample_z sample_y sample_x false None est_optimal
              (snd (sample_fit est_optimal)))
    as (th & se & H & _);
    [vm_compute; reflexivity | exists th, se; exact H].
Defined.

Lemma scipy_std_errors_per_regressor_witness :
  inverse_contract inv_upto2 /\
  opt est_optimal = "scipy"%string /\
  sample_fit est_optimal = (Ok tt, snd (sample_fit est_optimal)) /\
  std_errors (snd (sample_fit est_optimal))
  = Some (Val [Root (Q2Qc (2 # 10))]) /\
  length [Root (Q2Qc (2 # 10))] = Np.ncols sample_x.
Proof.
  split; [exact inv_upto2_contract|]. split; [reflexivity|].
  split; [vm_compute; reflexivity|]. split; [vm_compute; reflexivity|].
  destruct (scipy_std_errors_per_regressor inv_upto2 rand_zeros solver_try2
              solver_try2 sample_z sample_y sample_x false None est_optimal
              (snd (sample_fit est_optimal)) [Root (Q2Qc (2 # 10))])
    as (H & _);
    [exact inv_upto2_contract | reflexivity | vm_compute; reflexivity
    | vm_compute; reflexivity | exact H].
Defined.

Lemma iv_moments_aligned_witness :
  Np.is_ndarray sample_z = true /\ Np.is_ndarray sample_x = true /\
  Np.nrows sample_z = Np.nrows sample_x /\
  length sample_y = Np.nrows sample_x /\
  Np.ncols sample_x = length [qz 2] /\
  exists Mm,
    iv_moment_numpy Qc Num_Qc sample_z sample_y sample_x [qz 2] = Ok Mm /\
    Np.shape Mm = Np.shape sample_z.
Proof.
  do 5 (split; [reflexivity|]).
  destruct (iv_moments_aligned sample_z sample_y sample_x [qz 2])
    as (Mm & HM & _ & Hr & Hc & _); try reflexivity.
  exists Mm. split; [exact HM|]. unfold Np.shape. rewrite Hr, Hc.
  reflexivity.
Defined.

Lemma fit_keeps_configuration_witness :
  narrow_fit fitted_once = (Ok tt, snd (narrow_fit fitted_once)) /\
  opt (snd (narrow_fit fitted_once)) = opt fitted_once /\
  weighting_matrix (snd (narrow_fit fitted_once))
  = weighting_matrix fitted_once.
Proof.
  split; [vm_compute; reflexivity|].
  destruct (fit_keeps_configuration inv_upto2 rand_zeros solver_try2
              solver_try2 narrow_z sample_y sample_x false None
              fitted_once (Ok tt) (snd (narrow_fit fitted_once)))
    as (_ & Hw & Ho);
    [vm_compute; reflexivity | split; assumption].
Defined.

Lemma iv_moments_vanish_at_exact_fit_witness :
  Np.is_ndarray sample_z = true /\ Np.is_ndarray sample_x = true /\
  Np.nrows sample_z = Np.nrows sample_x /\
  Np.ncols sample_x = length [qz 2] /\
  exists Mm,
    iv_moment_numpy Qc Num_Qc sample_z (Np.matvec sample_x [qz 2])
      sample_x [qz 2] = Ok Mm /\
    all_zero Mm.
Proof.
  do 4 (split; [reflexivity|]).
  apply (iv_moments_vanish_at_exact_fit sample_z sample_x [qz 2]);
    reflexivity.
Defined.


Lemma scipy_jacobian_ignores_moment_cond_witness :
  opt (staged est_identity) = "scipy"%string /\
  opt (staged est_scaled) = "scipy"%string /\
  moment_cond (staged est_scaled) Qc Num_Qc sample_z sample_y sample_x
    [qz 2]
  <> moment_cond (staged est_identity) Qc Num_Qc sample_z sample_y sample_x
       [qz 2] /\
  fst (jacobian_moment_cond (staged est_identity))
  = fst (jacobian_moment_cond (staged est_scaled)).
Proof.
  split; [reflexivity|]. split; [reflexivity|].
  split; [vm_compute; discriminate|].
  apply (scipy_jacobian_ignores_moment_cond (staged est_identity)
           (staged est_scaled)); reflexivity.
Defined.

Lemma jacobian_returns_jac_est_witness :
  jacobian_moment_cond (staged est_identity)
  = (Ok [[Q2Qc (-5 # 1)]], set_jac_est [[Q2Qc (-5 # 1)]]
                             (staged est_identity)) /\
  jac_est (set_jac_est [[Q2Qc (-5 # 1)]] (staged est_identity))
  = Some [[Q2Qc (-5 # 1)]].
Proof.
  split; [vm_compute; reflexivity|].
  destruct (jacobian_returns_jac_est (staged est_identity)
              [[Q2Qc (-5 # 1)]]
              (set_jac_est [[Q2Qc (-5 # 1)]] (staged est_identity)))
    as (H & _ & _);
    [vm_compute; reflexivity | exact H].
Defined.

End GMMFacts.

(** * The scipy backend in binary64 *)

Module F64Facts.
Import PrimFloat.

(** C10, as stated, fails in binary64.  At finite data whose moments
    overflow, the moments are [-inf] and [inf], their mean is NaN, and the
    objective with identity weighting returns NaN, which is not a
    non-negative number. *)
Theorem identity_objective_nan_on_overflow :
  forallb (forallb F64.finite) (huge_z ++ [huge_y] ++ huge_x ++ [[1%float]])
  = true /\
  iv_moment_numpy float F64.Num_float huge_z huge_y huge_x [1%float]
  = Ok [[neg_infinity]; [infinity]] /\
  exists v,
    F64.gmm_objective finv_upto2 iv_moment_numpy "identity"
      huge_z huge_y huge_x (Np.nrows huge_x) [1%float]
    = Ok (F64.eye 1, v) /\
    is_nan v = true /\
    F64.nonneg v = false.
Proof.
  split; [vm_compute; reflexivity|].
  split; [vm_compute; reflexivity|].
  exists nan.
  split; [vm_compute; reflexivity|].
  split; vm_compute; reflexivity.
Qed.

(** C8, as stated, fails in binary64.  With finite data whose Jacobian is
    nearly singular, [Gamma.T @ W @ Gamma] rounds to an array with a
    negative determinant; its inverse has a negative diagonal, and [fit]
    leaves standard errors that are all NaN. *)
Theorem std_errors_nan_from_rounding :
  forallb (forallb F64.finite) (unit_z ++ [ones_y] ++ skew_x) = true /\
  exists th g v se,
    skew_fit
    = Ok (F64.mkfitted th (F64.eye 2) (Some g) (Some v) (Some se)) /\
    F64.matmul (F64.matmul (Np.transpose g) (F64.eye 2)) g
    = [[1; 1 + ulp1]; [1 + ulp1; 1 + ulp1]]%float /\
    forallb (fun d => d <? 0)%float (F64.diag v) = true /\
    se = [nan; nan] /\
    forallb F64.nonneg se = false.
Proof.
  split; [vm_compute; reflexivity|].
  exists [1; 1]%float.
  exists [[1; 1]; [0x1.4p-27; 0x1p-26]]%float.
  exists [[-4503599627370497; 4503599627370497];
          [4503599627370497; -4503599627370496]]%float.
  exists [nan; nan].
  split; [vm_compute; reflexivity|].
  split; [vm_compute; reflexivity|].
  split; [vm_compute; reflexivity|].
  split; [reflexivity | vm_compute; reflexivity].
Qed.

End F64Facts.
